(** * Chemical patent analyzer backend: shallow embedding and properties

    The development follows the two source files of the repository:
    - [src/services/patent_analyzer.py] (class [PatentAnalyzer]): module
      [Analyzer], on top of the fragment of [re] in module [Re];
    - [src/routes/patent.py] (upload handler, background worker, query
      handlers): module [Routes].
    The properties are in [AnalyzerProps] and [RoutesProps].

    Python values are modelled as follows.  A [str] that holds document text
    is a list of Unicode code points ([text]); dictionary keys, status
    values, messages and exception texts are [string]s; a [dict] is a
    [gmap]; an exception is carried by the left summand of [exc + A] and
    holds the text that [str(e)] would give. *)

From stdpp Require Import gmap strings list fin_maps pretty.
From Stdlib Require Import ZArith Lia.

(** ** Python basics *)

Module Py.

(** A code point, and a Python [str] holding document text. *)
Definition char := N.
Definition text := list char.

Definition char_of_ascii (a : Ascii.ascii) : char := Ascii.N_of_ascii a.

(** An ASCII literal as a [text]. *)
Fixpoint str (s : string) : text :=
  match s with
  | EmptyString => []
  | String a s' => char_of_ascii a :: str s'
  end.

(** The one-character string ['\n']. *)
Definition newline : text := [10%N].

(** A raised [Exception], as the text [str(e)] that the handlers store and
    send. *)
Definition exc := string.

Definition ret {A} (x : A) : exc + A := inr x.
Definition raise {A} (e : exc) : exc + A := inl e.
Definition bind {A B} (m : exc + A) (f : A → exc + B) : exc + B :=
  match m with
  | inl e => inl e
  | inr x => f x
  end.

(** [try: m except Exception as e: h e] *)
Definition try_except {A} (m : exc + A) (h : exc → A) : A :=
  match m with
  | inl e => h e
  | inr x => x
  end.

(** [needle in hay] on two [str] values: substring test. *)
Fixpoint starts_with (needle hay : text) : bool :=
  match needle, hay with
  | [], _ => true
  | _ :: _, [] => false
  | a :: n', b :: h' => (a =? b)%N && starts_with n' h'
  end.

Fixpoint contains (needle hay : text) : bool :=
  starts_with needle hay ||
  match hay with
  | [] => false
  | _ :: h' => contains needle h'
  end.

(** [x in l] on a list of [str]. *)
Definition text_eqb (a b : text) : bool := bool_decide (a = b).
Definition mem (x : text) (l : list text) : bool := existsb (text_eqb x) l.

(** The character tables of the Python runtime that the analyzer consults.
    They cover all of Unicode and are not part of the repository, so the
    analyzer is parameterised by them. *)
Record unicode_db := {
  is_decimal : char → bool;   (* category Nd: [\d] of [re] on [str] patterns *)
  is_alnum : char → bool;     (* [str.isalnum]; [\w] of [re] is this or '_' *)
  is_digit : char → bool;     (* [str.isdigit] *)
  is_space : char → bool;     (* [str.isspace]: what [str.strip] removes *)
  to_upper : char → text      (* full upper-case mapping used by [str.upper] *)
}.

Definition in_range (lo hi c : N) : bool := ((lo <=? c) && (c <=? hi))%N.

(** The tables restricted to ASCII: they agree with CPython on every code
    point below 128 and treat every other code point as a symbol. *)
Definition ascii_db : unicode_db := {|
  is_decimal c := in_range 48 57 c;
  is_alnum c := in_range 48 57 c || in_range 65 90 c || in_range 97 122 c;
  is_digit c := in_range 48 57 c;
  is_space c := in_range 9 13 c || in_range 28 32 c;
  to_upper c := if in_range 97 122 c then [(c - 32)%N] else [c]
|}.

(** [s.upper()] *)
Definition upper (db : unicode_db) (s : text) : text :=
  flat_map (to_upper db) s.

(** [s.strip()] *)
Fixpoint lstrip (db : unicode_db) (s : text) : text :=
  match s with
  | c :: s' => if is_space db c then lstrip db s' else s
  | [] => []
  end.
Definition strip (db : unicode_db) (s : text) : text :=
  reverse (lstrip db (reverse (lstrip db s))).

End Py.

(** ** The fragment of [re] used by formula extraction

    A backtracking matcher in continuation-passing style, as [re] matches:
    quantifiers are greedy and give back characters when the rest of the
    pattern fails.  The state is the character before the current position
    (for [\b]) and the remaining input. *)

Module Re.
Import Py.

Inductive regex :=
  | Cls (p : char → bool)        (* a character, a class or an escape such as [\d] *)
  | Seq (r1 r2 : regex)
  | Opt (r : regex)              (* [r?] *)
  | Star (r : regex)             (* [r*] *)
  | Plus (r : regex)             (* [r+] *)
  | WordB.                       (* [\b] *)

Definition Lit (c : N) : regex := Cls (N.eqb c).

Section Matcher.
Context (db : unicode_db) {A : Type}.

Definition kont := option char → text → option A.

(** [\w] *)
Definition is_word (c : char) : bool := is_alnum db c || (c =? 95)%N.

Definition word_before (prev : option char) : bool :=
  match prev with
  | Some c => is_word c
  | None => false
  end.

Definition word_after (s : text) : bool :=
  match s with
  | c :: _ => is_word c
  | [] => false
  end.

(** Greedy iteration of a body [mr]; an iteration that consumes nothing
    ends the loop.  [fuel] bounds the number of iterations by the length
    of the input. *)
Fixpoint star (mr : option char → text → kont → option A)
    (fuel : nat) (prev : option char) (s : text) (k : kont) : option A :=
  match fuel with
  | 0 => k prev s
  | S f =>
      match mr prev s (λ prev' s',
              if length s' <? length s then star mr f prev' s' k else None) with
      | Some x => Some x
      | None => k prev s
      end
  end.

Fixpoint m (r : regex) (prev : option char) (s : text) (k : kont) : option A :=
  match r with
  | Cls p =>
      match s with
      | c :: s' => if p c then k (Some c) s' else None
      | [] => None
      end
  | Seq r1 r2 => m r1 prev s (λ prev' s', m r2 prev' s' k)
  | Opt r1 =>
      match m r1 prev s k with
      | Some x => Some x
      | None => k prev s
      end
  | Star r1 => star (m r1) (S (length s)) prev s k
  | Plus r1 =>
      m r1 prev s (λ prev' s', star (m r1) (S (length s')) prev' s' k)
  | WordB =>
      if xorb (word_before prev) (word_after s) then k prev s else None
  end.
End Matcher.

(** A match that starts at the current position: the character before the
    end of the match and the input left after it. *)
Definition match_here (db : unicode_db) (r : regex) (prev : option char) (s : text)
    : option (option char * text) :=
  m db r prev s (λ prev' s', Some (prev', s')).

(** [re.findall(r, s)] for a pattern without capture groups: the matched
    substrings from left to right, without overlap.  After an empty match the
    scan moves on by one character. *)
Fixpoint findall_from (db : unicode_db) (r : regex) (fuel : nat)
    (prev : option char) (s : text) : list text :=
  match fuel with
  | 0 => []
  | S f =>
      match match_here db r prev s with
      | Some (prev', s') =>
          let w := take (length s - length s') s in
          match w, s with
          | [], c :: t => w :: findall_from db r f (Some c) t
          | [], [] => [w]
          | _ :: _, _ => w :: findall_from db r f prev' s'
          end
      | None =>
          match s with
          | c :: t => findall_from db r f (Some c) t
          | [] => []
          end
      end
  end.

Definition findall (db : unicode_db) (r : regex) (s : text) : list text :=
  findall_from db r (S (length s)) None s.

End Re.

(** ** [src/services/patent_analyzer.py] *)

Module Analyzer.
Import Py Re.

(** *** The result of an analysis *)

(** The dictionary built by [_generate_analysis_summary].  The list made
    from [set(compound_types)] has no specified order: it is kept as a set. *)
Record AnalysisSummary := {
  total_compounds : nat;
  total_structures : nat;
  pages_analyzed : nat;
  images_found : nat;
  compound_types : gset string;
  patent_strength : string;
  novelty_assessment : string
}.

(** The dictionary returned by [analyze_patent_pdf]: its six keys are fixed. *)
Record AnalysisResult := {
  chemical_formulas : list text;
  smiles_structures : list text;
  patent_elements : gmap string text;
  analysis_summary : option AnalysisSummary;   (* [None] is the initial [{}] *)
  images_extracted : nat;
  pages_processed : nat
}.

(** *** The document as the parsing library presents it

    [fitz] and [PIL] are outside the repository: a document is given by what
    each call on it returns or raises. *)

(** One entry of [page.get_images()]. *)
Record image := {
  img_pixmap : exc + (Z * Z);          (* [fitz.Pixmap(pdf_doc, xref)]: [pix.n], [pix.alpha] *)
  img_save : exc + unit;               (* [pix.save(img_path)] *)
  img_exists : bool;                   (* [os.path.exists(img_path)] after the save *)
  img_size : exc + (Z * Z);            (* [Image.open(img_path)]: [img.size] *)
  img_choice : nat                     (* the index drawn by [random.choice] *)
}.

Record page := {
  page_text : exc + text;              (* [page.get_text()] *)
  page_images : exc + list image       (* [page.get_images()] *)
}.

Record document := {
  doc_pages : list (exc + page);       (* [pdf_doc.load_page(i)] for [i] in [range(len(pdf_doc))] *)
  doc_close : exc + unit               (* [pdf_doc.close()] *)
}.

(** [fitz.open(pdf_path)] *)
Definition pdf := (exc + document)%type.

(** *** [_extract_text_from_pdf] *)

(** The body of the [for] loop over the pages, from the accumulator
    [(full_text, pages_processed)]. *)
Fixpoint text_loop (pages : list (exc + page)) (acc : text * nat) : exc + (text * nat) :=
  match pages with
  | [] => ret acc
  | p :: rest =>
      bind p (λ pg,
      bind (page_text pg) (λ t,
      text_loop rest (acc.1 ++ t ++ newline, S acc.2)))
  end.

Definition _extract_text_from_pdf (f : pdf) : text * nat :=
  try_except
    (bind f (λ pdf_doc,
     bind (text_loop (doc_pages pdf_doc) ([], 0)) (λ r,
     bind (doc_close pdf_doc) (λ _,
     ret r))))
    (λ _, ([], 0)).

(** *** [_extract_patent_elements] *)

(** The pattern table, in the order of the dictionary literal.  The patterns
    are kept as written; [re.search] with the flags
    [DOTALL | IGNORECASE | MULTILINE] is a parameter of the extraction. *)
Definition patterns : list (string * list string) := [
  ("title", [
     "Title of Invention\s*:?\s*(.*?)(?:\n|$)";
     "發明名稱\s*:?\s*(.*?)(?:\n|$)";
     "TITLE\s*:?\s*(.*?)(?:\n|$)";
     "標題\s*:?\s*(.*?)(?:\n|$)" ]);
  ("abstract", [
     "Abstract\s*:?\s*(.*?)(?=\n\n|\n[A-Z]|$)";
     "摘要\s*:?\s*(.*?)(?=\n\n|\n[A-Z]|$)";
     "ABSTRACT\s*:?\s*(.*?)(?=\n\n|\n[A-Z]|$)" ]);
  ("claims", [
     "Claims?\s*:?\s*(.*?)(?=\n\n|\n[A-Z]|$)";
     "請求項\s*:?\s*(.*?)(?=\n\n|\n[A-Z]|$)";
     "CLAIMS?\s*:?\s*(.*?)(?=\n\n|\n[A-Z]|$)" ]);
  ("inventors", [
     "Inventors?\s*:?\s*(.*?)(?:\n|$)";
     "發明人\s*:?\s*(.*?)(?:\n|$)";
     "INVENTORS?\s*:?\s*(.*?)(?:\n|$)" ]);
  ("applicant", [
     "Applicants?\s*:?\s*(.*?)(?:\n|$)";
     "申請人\s*:?\s*(.*?)(?:\n|$)";
     "APPLICANTS?\s*:?\s*(.*?)(?:\n|$)" ]);
  ("description", [
     "(?:Detailed )?Description\s*:?\s*(.*?)(?=\n\n|\n[A-Z]|$)";
     "詳細說明\s*:?\s*(.*?)(?=\n\n|\n[A-Z]|$)";
     "DESCRIPTION\s*:?\s*(.*?)(?=\n\n|\n[A-Z]|$)" ])
].

Section FieldExtraction.
(** [re.search(pattern, full_text, flags)]: [None] when there is no match,
    else [match.group(1)]. *)
Context (re_search : string → text → option text).
Context (db : unicode_db).

(** The inner [for pattern in pattern_list] loop with its [break]: the
    value stored for the field, if any. *)
Fixpoint first_content (pattern_list : list string) (full_text : text) : option text :=
  match pattern_list with
  | [] => None
  | pattern :: rest =>
      match re_search pattern full_text with
      | Some g =>
          let content := strip db g in
          if negb (bool_decide (content = [])) && (5 <? length content)
          then Some (take 500 content)
          else first_content rest full_text
      | None => first_content rest full_text
      end
  end.

(** The outer [for element, pattern_list in patterns.items()] loop. *)
Fixpoint elements_loop (ps : list (string * list string)) (full_text : text)
    (patent_elements : gmap string text) : gmap string text :=
  match ps with
  | [] => patent_elements
  | (element, pattern_list) :: rest =>
      elements_loop rest full_text
        match first_content pattern_list full_text with
        | Some v => <[element := v]> patent_elements
        | None => patent_elements
        end
  end.

Definition _extract_patent_elements (full_text : text) : gmap string text :=
  elements_loop patterns full_text ∅.
End FieldExtraction.

(** *** [_extract_chemical_formulas] and [_is_likely_chemical_formula] *)

Section Formulas.
Context (db : unicode_db).

Definition upper_AZ : regex := Cls (in_range 65 90).     (* [[A-Z]] *)
Definition lower_az : regex := Cls (in_range 97 122).    (* [[a-z]] *)
Definition digit : regex := Cls (is_decimal db).         (* [\d] *)

(** [[A-Z][a-z]?(?:\d+)?] *)
Definition element : regex := Seq upper_AZ (Seq (Opt lower_az) (Opt (Plus digit))).

(** [\b[A-Z][a-z]?(?:\d+)?(?:[A-Z][a-z]?(?:\d+)?)*\b] *)
Definition pattern_basic : regex :=
  Seq WordB (Seq element (Seq (Star element) WordB)).

(** [\b[A-Z][a-z]?(?:\d+)?(?:\([A-Z][a-z]?(?:\d+)?\)(?:\d+)?)*(?:[A-Z][a-z]?(?:\d+)?)*\b] *)
Definition pattern_brackets : regex :=
  Seq WordB (Seq element
    (Seq (Star (Seq (Lit 40) (Seq element (Seq (Lit 41) (Opt (Plus digit))))))
      (Seq (Star element) WordB))).

(** The third pattern, its tokens spaced out:
    [\b C \d+ H \d+ (?: [A-Z] [a-z]? \d* )* \b] *)
Definition pattern_organic : regex :=
  Seq WordB (Seq (Lit 67) (Seq (Plus digit) (Seq (Lit 72) (Seq (Plus digit)
    (Seq (Star (Seq upper_AZ (Seq (Opt lower_az) (Star digit)))) WordB))))).

Definition formula_patterns : list regex :=
  [pattern_basic; pattern_brackets; pattern_organic].

Definition common_elements : list text :=
  map str ["C"; "H"; "O"; "N"; "S"; "P"; "Cl"; "Br"; "F"; "I"; "Na"; "K"; "Ca"; "Mg"].

Definition avoid_words : list text :=
  map str ["THE"; "AND"; "FOR"; "WITH"; "ARE"; "CAN"; "MAY"; "USE"].

(** [has_uppercase] is computed by the source and never used. *)
Definition _is_likely_chemical_formula (formula : text) : bool :=
  let has_number := existsb (is_digit db) formula in
  let has_common_element := existsb (λ elem, contains elem formula) common_elements in
  let is_avoid_word := mem (upper db formula) avoid_words in
  has_common_element && (has_number || (length formula <=? 6)) && negb is_avoid_word.

(** The inner [for match in matches] loop. *)
Fixpoint collect (matches : list text) (chemical_formulas : list text) : list text :=
  match matches with
  | [] => chemical_formulas
  | mt :: rest =>
      collect rest
        (if (2 <=? length mt) && _is_likely_chemical_formula mt
         then if negb (mem mt chemical_formulas)
              then chemical_formulas ++ [mt]
              else chemical_formulas
         else chemical_formulas)
  end.

(** The outer [for pattern in patterns] loop. *)
Fixpoint collect_patterns (ps : list regex) (t : text) (chemical_formulas : list text)
    : list text :=
  match ps with
  | [] => chemical_formulas
  | pattern :: rest =>
      collect_patterns rest t (collect (findall db pattern t) chemical_formulas)
  end.

(** The list before the final slice. *)
Definition formula_candidates (t : text) : list text :=
  collect_patterns formula_patterns t [].

Definition _extract_chemical_formulas (t : text) : list text :=
  take 20 (formula_candidates t).
End Formulas.

(** *** [_analyze_chemical_structure_image] and [_extract_images_and_analyze] *)

Definition mock_smiles : list text :=
  map str ["c1ccccc1"; "CCO"; "CC(=O)O"; "c1ccc2ccccc2c1"; "CC(C)O"].

(** Every exception inside is caught and gives [None]. *)
Definition _analyze_chemical_structure_image (img : image) : option text :=
  if negb (img_exists img) then None
  else
    match img_size img with
    | inl _ => None
    | inr (width, height) =>
        if ((width <? 50) || (height <? 50))%Z then None
        else Some (nth (img_choice img mod 5) mock_smiles [])
    end.

(** The body of [for img_index, img in enumerate(image_list)], a [try] whose
    handler is [continue], from [(images_extracted, smiles_list)]. *)
Definition image_step (acc : nat * list text) (img : image) : nat * list text :=
  match img_pixmap img with
  | inl _ => acc
  | inr (n, alpha) =>
      if (n - alpha <? 4)%Z then
        match img_save img with
        | inl _ => acc
        | inr _ =>
            let images_extracted := S acc.1 in
            match _analyze_chemical_structure_image img with
            | Some smiles =>
                if bool_decide (smiles = []) then (images_extracted, acc.2)
                else (images_extracted, acc.2 ++ [smiles])
            | None => (images_extracted, acc.2)
            end
        end
      else acc
  end.

(** The body of [for page_num in range(len(pdf_doc))]. *)
Fixpoint images_loop (pages : list (exc + page)) (acc : nat * list text)
    : exc + (nat * list text) :=
  match pages with
  | [] => ret acc
  | p :: rest =>
      bind p (λ pg,
      bind (page_images pg) (λ image_list,
      images_loop rest (foldl image_step acc image_list)))
  end.

(** [mkdtemp] is the outcome of [tempfile.mkdtemp()]. *)
Definition _extract_images_and_analyze (f : pdf) (mkdtemp : exc + string)
    : nat * list text :=
  try_except
    (bind f (λ pdf_doc,
     bind mkdtemp (λ _,
     bind (images_loop (doc_pages pdf_doc) (0, [])) (λ r,
     bind (doc_close pdf_doc) (λ _,
     ret r)))))
    (λ _, (0, [])).

(** *** [_generate_analysis_summary] *)

Definition compound_type (formula : text) : string :=
  if contains (str "C") formula && contains (str "H") formula then "有機化合物"
  else if existsb (λ elem, contains elem formula) (map str ["Na"; "K"; "Ca"; "Mg"])
  then "無機鹽類"
  else "其他化合物".

Definition _generate_analysis_summary (result : AnalysisResult) : AnalysisSummary :=
  let total := length (chemical_formulas result) in
  let strength1 :=
    match patent_elements result !! "claims" with
    | Some c => if negb (bool_decide (c = [])) && (100 <? length c) then "中等" else "低"
    | None => "低"
    end in
  {| total_compounds := total;
     total_structures := length (smiles_structures result);
     pages_analyzed := pages_processed result;
     images_found := images_extracted result;
     compound_types := list_to_set (map compound_type (chemical_formulas result));
     patent_strength := if 5 <? total then "高" else strength1;
     novelty_assessment := "需進一步評估" |}.

(** *** [analyze_patent_pdf] *)

Section Pipeline.
Context (re_search : string → text → option text) (db : unicode_db).

(** Every step handles its own exceptions, so the [try] around the body
    has nothing to re-raise. *)
Definition analyze_patent_pdf (f : pdf) (mkdtemp : exc + string) : exc + AnalysisResult :=
  let '(full_text, pages) := _extract_text_from_pdf f in
  let elems := _extract_patent_elements re_search db full_text in
  let formulas := _extract_chemical_formulas db full_text in
  let '(images, smiles_list) := _extract_images_and_analyze f mkdtemp in
  let result := {| chemical_formulas := formulas;
                   smiles_structures := smiles_list;
                   patent_elements := elems;
                   analysis_summary := None;
                   images_extracted := images;
                   pages_processed := pages |} in
  ret {| chemical_formulas := formulas;
         smiles_structures := smiles_list;
         patent_elements := elems;
         analysis_summary := Some (_generate_analysis_summary result);
         images_extracted := images;
         pages_processed := pages |}.
End Pipeline.

(** *** [cleanup_temp_files] *)




(** *** [validate_smiles] *)

Definition valid_chars : text :=
  str "abcdefghijklmnopqrstuvwxyzABCDEFGHIJKLMNOPQRSTUVWXYZ0123456789()[]=#@+-".

Definition validate_smiles (smiles : text) : bool :=
  if bool_decide (smiles = []) || (length smiles <? 1) then false
  else forallb (λ c, bool_decide (c ∈ valid_chars)) smiles.

End Analyzer.

(** ** [src/routes/patent.py] *)

Module Routes.
Import Py Analyzer.

(** *** Values, task entries, responses *)

(** What a task entry holds under its keys. *)
Inductive value :=
  | VStr (s : string)
  | VInt (z : Z)
  | VTime (t : Z)                       (* a reading of [time.time()] *)
  | VResult (r : AnalysisResult).

(** A task entry is a [dict] from key to value, the registry
    [analysis_tasks] a [dict] from task id to entry, the scratch file system
    a map from directory to the sizes of the files in it. *)
Abbreviation entry := (gmap string value).
Abbreviation registry := (gmap string (gmap string value)).
Abbreviation filesystem := (gmap string (gmap string Z)).

Definition ALLOWED_EXTENSIONS : list string := ["pdf"].
Definition MAX_FILE_SIZE : Z := 50 * 1024 * 1024.

(** The document built by [generate_report]. *)
Record report := {
  rep_task_id : string;
  rep_report_title : string;
  rep_filename : value;
  rep_generated_at : string;
  rep_executive_summary : string;
  rep_formulas : list text;
  rep_smiles : list text;
  rep_count : nat;
  rep_types : gset string;
  rep_patent_elements : gmap string text;
  rep_pages_analyzed : nat;
  rep_images_extracted : nat;
  rep_patent_strength : string;
  rep_recommendations : list string
}.

(** The argument of [jsonify]. *)
Inductive body :=
  | Dict (items : list (string * value))
  | Report (r : report).

Definition response := (body * Z)%type.

Definition error_response (msg : string) (code : Z) : response :=
  (Dict [("error", VStr msg)], code).

(** [v == s] for a string literal [s] *)
Definition is_str (v : value) (s : string) : bool :=
  match v with
  | VStr s' => bool_decide (s' = s)
  | _ => false
  end.

(** [str(KeyError(k))] *)
Definition KeyError (k : string) : exc := "'" +:+ k +:+ "'".

(** [d[k]] *)
Definition getitem (d : entry) (k : string) : exc + value :=
  match d !! k with
  | Some v => ret v
  | None => raise (KeyError k)
  end.

(** [d.get(k, default)] *)
Definition get (d : entry) (k : string) (default : value) : value :=
  match d !! k with
  | Some v => v
  | None => default
  end.

(** *** [allowed_file] *)

(** [s.lower()] on the letters A to Z.  A file name is kept as its UTF-8
    bytes; no other character is lowered to a letter of ['pdf'], so the test
    against [ALLOWED_EXTENSIONS] is the one of the source. *)
Definition lower_ascii (a : Ascii.ascii) : Ascii.ascii :=
  let n := Ascii.N_of_ascii a in
  if in_range 65 90 n then Ascii.ascii_of_N (n + 32) else a.

Fixpoint lower (s : string) : string :=
  match s with
  | EmptyString => EmptyString
  | String a s' => String (lower_ascii a) (lower s')
  end.

(** [filename.rsplit('.', 1)[1]]: the text after the last dot, [None] when
    the name has no dot. *)
Fixpoint after_last_dot (s : string) : option string :=
  match s with
  | EmptyString => None
  | String a s' =>
      match after_last_dot s' with
      | Some ext => Some ext
      | None => if bool_decide (String a EmptyString = ".") then Some s' else None
      end
  end.

Definition allowed_file (filename : string) : bool :=
  match after_last_dot filename with
  | Some ext => bool_decide (lower ext ∈ ALLOWED_EXTENSIONS)
  | None => false
  end.

(** *** The shared state and the threads *)

(** Where a worker thread stands in [run_analysis]: the line it executes
    next, with the local variables [result] and [e] once they are bound. *)
Inductive pc :=
  | L28 | L29 | L30 | L33
  | L36 (result : AnalysisResult) | L37 (result : AnalysisResult)
  | L40 (result : AnalysisResult) | L41 (result : AnalysisResult)
  | L42 (result : AnalysisResult) | L43 (result : AnalysisResult)
  | L47 | L48
  | L53 (e : exc) | L54 (e : exc) | L55 (e : exc)
  | Done
  | Crashed (e : exc).

(** One thread started by [upload_patent] with
    [args=(task_id, file_path, temp_dir)]; [file_path] is the file
    [w_file_name] in [w_temp_dir].  [w_analysis] is what the call
    [analyzer.analyze_patent_pdf(file_path)] returns or raises. *)
Record worker := {
  w_task_id : string;
  w_temp_dir : string;
  w_file_name : string;
  w_analysis : exc + AnalysisResult;
  w_pc : pc
}.

(** The state shared by the request handlers and the threads.  [status_log]
    is a history variable: every write of a ['status'] key, oldest first. *)
Record world := {
  analysis_tasks : registry;
  files : filesystem;
  threads : list worker;
  status_log : list (string * value)
}.

(** A statement: it changes the world and returns or raises. *)
Definition M (A : Type) : Type := world → (exc + A) * world.

#[global] Instance M_ret : MRet M := λ A x σ, (inr x, σ).
#[global] Instance M_bind : MBind M := λ A B f c σ,
  match c σ with
  | (inl e, σ') => (inl e, σ')
  | (inr x, σ') => f x σ'
  end.

Definition lift {A} (r : exc + A) : M A := λ σ, (r, σ).

Definition with_tasks (f : registry → registry) (σ : world) : world :=
  {| analysis_tasks := f (analysis_tasks σ); files := files σ;
     threads := threads σ; status_log := status_log σ |}.
Definition with_files (f : filesystem → filesystem) (σ : world) : world :=
  {| analysis_tasks := analysis_tasks σ; files := f (files σ);
     threads := threads σ; status_log := status_log σ |}.
Definition with_threads (f : list worker → list worker) (σ : world) : world :=
  {| analysis_tasks := analysis_tasks σ; files := files σ;
     threads := f (threads σ); status_log := status_log σ |}.
Definition with_log (f : list (string * value) → list (string * value)) (σ : world) : world :=
  {| analysis_tasks := analysis_tasks σ; files := files σ;
     threads := threads σ; status_log := f (status_log σ) |}.

Definition log_status (task_id k : string) (v : value) (σ : world) : world :=
  if bool_decide (k = "status") then with_log (λ l, l ++ [(task_id, v)]) σ else σ.

(** [analysis_tasks[task_id][k] = v] *)
Definition setitem (task_id k : string) (v : value) : M unit := λ σ,
  match analysis_tasks σ !! task_id with
  | None => (inl (KeyError task_id), σ)
  | Some task =>
      (inr (), log_status task_id k v (with_tasks <[task_id := <[k := v]> task]> σ))
  end.

(** [analysis_tasks[task_id] = task], for a [task] that has a ['status']. *)
Definition settask (task_id : string) (task : entry) : M unit := λ σ,
  (inr (), log_status task_id "status" (get task "status" (VStr ""))
             (with_tasks <[task_id := task]> σ)).

(** [tempfile.mkdtemp()], which creates the directory [d] it has chosen. *)
Definition mkdtemp (d : string) : M string := λ σ,
  match files σ !! d with
  | Some _ => (inl "FileExistsError", σ)
  | None => (inr d, with_files <[d := ∅]> σ)
  end.

(** [file.save(file_path)]; [outcome] is whether the write goes through. *)
Definition save (outcome : exc + unit) (d name : string) (size : Z) : M unit := λ σ,
  match outcome, files σ !! d with
  | inl e, _ => (inl e, σ)
  | inr _, None => (inl "FileNotFoundError", σ)
  | inr _, Some fs => (inr (), with_files <[d := <[name := size]> fs]> σ)
  end.

(** [os.path.getsize(file_path)] *)
Definition getsize (d name : string) : M Z := λ σ,
  match files σ !! d ≫= (.!! name) with
  | Some size => (inr size, σ)
  | None => (inl "FileNotFoundError", σ)
  end.

(** [os.remove(file_path)] *)
Definition os_remove (d name : string) : M unit := λ σ,
  match files σ !! d with
  | Some fs =>
      match fs !! name with
      | Some _ => (inr (), with_files <[d := delete name fs]> σ)
      | None => (inl "FileNotFoundError", σ)
      end
  | None => (inl "FileNotFoundError", σ)
  end.

(** [os.rmdir(temp_dir)]: the directory has to be empty. *)
Definition os_rmdir (d : string) : M unit := λ σ,
  match files σ !! d with
  | Some fs =>
      if bool_decide (fs = ∅) then (inr (), with_files (delete d) σ)
      else (inl "OSError: Directory not empty", σ)
  | None => (inl "FileNotFoundError", σ)
  end.

(** [thread.start()]; [outcome] is whether the platform starts the thread. *)
Definition thread_start (outcome : exc + unit) (w : worker) : M unit := λ σ,
  match outcome with
  | inl e => (inl e, σ)
  | inr _ => (inr (), with_threads (λ l, l ++ [w]) σ)
  end.

(** *** [upload_patent] *)

(** An entry of [request.files]. *)
Record FileStorage := {
  filename : string;
  content_length : Z        (* the number of bytes [file.save] writes *)
}.

(** What the platform supplies to one call of [upload_patent]. *)
Record upload_env := {
  env_task_id : string;                  (* the first [str(uuid.uuid4())] *)
  env_file_uuid : string;                (* the second [str(uuid.uuid4())] *)
  env_temp_dir : string;                 (* the directory [tempfile.mkdtemp()] picks *)
  env_save : exc + unit;                 (* whether [file.save] goes through *)
  env_time : Z;                          (* [time.time()] *)
  env_thread_start : exc + unit;         (* whether [thread.start()] goes through *)
  env_analysis : exc + AnalysisResult    (* what the analysis of the saved file gives *)
}.

(** [bool(file)] of a [FileStorage] is [bool(file.filename)]. *)
Definition file_truthy (file : FileStorage) : bool :=
  negb (bool_decide (filename file = "")).

Definition pending_task (file : FileStorage) (now : Z) : entry :=
  <["status" := VStr "pending"]>
  (<["progress" := VInt 0]>
  (<["message" := VStr "等待處理..."]>
  (<["filename" := VStr (filename file)]>
  (<["created_at" := VTime now]> ∅)))).

(** The body of the [try]. *)
Definition upload_body (request_files : gmap string FileStorage) (env : upload_env)
    : M response :=
  match request_files !! "file" with
  | None => mret (error_response "沒有檔案被上傳" 400)
  | Some file =>
      if bool_decide (filename file = "") then
        mret (error_response "沒有選擇檔案" 400)
      else if file_truthy file && allowed_file (filename file) then
        let task_id := env_task_id env in
        let unique_filename := env_file_uuid env +:+ ".pdf" in
        temp_dir ← mkdtemp (env_temp_dir env);
        save (env_save env) temp_dir unique_filename (content_length file);;
        file_size ← getsize temp_dir unique_filename;
        if (MAX_FILE_SIZE <? file_size)%Z then
          os_remove temp_dir unique_filename;;
          os_rmdir temp_dir;;
          mret (error_response "檔案大小超過限制 (50MB)" 400)
        else
          settask task_id (pending_task file (env_time env));;
          thread_start (env_thread_start env)
            {| w_task_id := task_id; w_temp_dir := temp_dir;
               w_file_name := unique_filename; w_analysis := env_analysis env;
               w_pc := L28 |};;
          mret (Dict [("message", VStr "檔案上傳成功，開始分析");
                      ("task_id", VStr task_id);
                      ("filename", VStr (filename file))], 200%Z)
      else
        mret (error_response "不支援的檔案格式，請上傳PDF檔案" 400)
  end.

Definition upload_patent (request_files : gmap string FileStorage) (env : upload_env)
    (σ : world) : response * world :=
  match upload_body request_files env σ with
  | (inr r, σ') => (r, σ')
  | (inl e, σ') => (error_response ("上傳失敗: " +:+ e) 500, σ')
  end.

(** *** [run_analysis] *)

(** The statement at the line where the worker stands, and the line it
    reaches when the statement returns. *)
Definition exec_at (w : worker) : M pc :=
  let task_id := w_task_id w in
  match w_pc w with
  | L28 => setitem task_id "status" (VStr "processing");; mret L29
  | L29 => setitem task_id "progress" (VInt 10);; mret L30
  | L30 => setitem task_id "message" (VStr "開始分析PDF檔案...");; mret L33
  | L33 => result ← lift (w_analysis w); mret (L36 result)
  | L36 result => setitem task_id "progress" (VInt 90);; mret (L37 result)
  | L37 result => setitem task_id "message" (VStr "生成分析報告...");; mret (L40 result)
  | L40 result => setitem task_id "status" (VStr "completed");; mret (L41 result)
  | L41 result => setitem task_id "progress" (VInt 100);; mret (L42 result)
  | L42 result => setitem task_id "message" (VStr "分析完成");; mret (L43 result)
  | L43 result => setitem task_id "result" (VResult result);; mret L47
  | L47 => os_remove (w_temp_dir w) (w_file_name w);; mret L48
  | L48 => os_rmdir (w_temp_dir w);; mret Done
  | L53 e => setitem task_id "status" (VStr "failed");; mret (L54 e)
  | L54 e => setitem task_id "message" (VStr ("分析失敗: " +:+ e));; mret (L55 e)
  | L55 e => setitem task_id "error" (VStr e);; mret Done
  | Done => mret Done
  | Crashed e => mret (Crashed e)
  end.

(** Where control goes when the statement at [p] raises [e]: to the handler
    of the outer [try] from its body, past the inner [try] from the clean-up
    (a bare [except: pass]), out of the thread from the handler itself. *)
Definition handler (p : pc) (e : exc) : pc :=
  match p with
  | L28 | L29 | L30 | L33 | L36 _ | L37 _ | L40 _ | L41 _ | L42 _ | L43 _ => L53 e
  | L47 | L48 => Done
  | L53 _ | L54 _ | L55 _ => Crashed e
  | Done | Crashed _ => p
  end.

(** One statement of [run_analysis]. *)
Definition run_analysis_step (w : worker) (σ : world) : pc * world :=
  match exec_at w σ with
  | (inr p, σ') => (p, σ')
  | (inl e, σ') => (handler (w_pc w) e, σ')
  end.

Definition at_pc (w : worker) (p : pc) : worker :=
  {| w_task_id := w_task_id w; w_temp_dir := w_temp_dir w;
     w_file_name := w_file_name w; w_analysis := w_analysis w; w_pc := p |}.

Definition finished (p : pc) : bool :=
  match p with
  | Done | Crashed _ => true
  | _ => false
  end.

(** [run_analysis] run on its own: at most [fuel] statements. *)
Fixpoint run_analysis_from (fuel : nat) (w : worker) (σ : world) : pc * world :=
  match fuel with
  | 0 => (w_pc w, σ)
  | S f =>
      if finished (w_pc w) then (w_pc w, σ)
      else let '(p, σ') := run_analysis_step w σ in run_analysis_from f (at_pc w p) σ'
  end.

(** No path has more than thirteen statements: the ten of the [try] body
    and then the two of the clean-up or the three of the handler. *)
Definition run_analysis (w : worker) (σ : world) : pc * world :=
  run_analysis_from 13 (at_pc w L28) σ.

(** The [i]-th thread executes one statement. *)
Definition thread_step (i : nat) (σ : world) : world :=
  match threads σ !! i with
  | Some w =>
      let '(p, σ') := run_analysis_step w σ in
      with_threads (<[i := at_pc w p]>) σ'
  | None => σ
  end.

(** *** The query handlers

    They only read the registry.  Each is a [try] whose handler answers 500
    with the text of the exception. *)

#[global] Instance exc_ret : MRet (sum exc) := λ A, inr.
#[global] Instance exc_bind : MBind (sum exc) := λ A B f c, Py.bind c f.

Definition not_found : response := error_response "找不到指定的分析任務" 404.

Definition get_analysis_result (tasks : registry) (task_id : string) : response :=
  try_except
    match tasks !! task_id with
    | None => mret not_found
    | Some task =>
        status ← getitem task "status";
        if is_str status "completed" then
          result ← getitem task "result";
          mret (Dict [("task_id", VStr task_id); ("status", status);
                      ("result", result)], 200%Z)
        else if is_str status "failed" then
          mret (Dict [("task_id", VStr task_id); ("status", status);
                      ("error", get task "error" (VStr "未知錯誤"))], 500%Z)
        else
          progress ← getitem task "progress";
          message ← getitem task "message";
          mret (Dict [("task_id", VStr task_id); ("status", status);
                      ("progress", progress); ("message", message)], 202%Z)
    end
    (λ e, error_response ("取得結果失敗: " +:+ e) 500).

Definition get_analysis_status (tasks : registry) (task_id : string) : response :=
  try_except
    match tasks !! task_id with
    | None => mret not_found
    | Some task =>
        status ← getitem task "status";
        progress ← getitem task "progress";
        message ← getitem task "message";
        mret (Dict [("task_id", VStr task_id); ("status", status);
                    ("progress", progress); ("message", message);
                    ("filename", get task "filename" (VStr ""));
                    ("created_at", get task "created_at" (VInt 0))], 200%Z)
    end
    (λ e, error_response ("狀態查詢失敗: " +:+ e) 500).

(** [result[...]] on what is stored under ['result']. *)
Definition subscriptable (v : value) : exc + AnalysisResult :=
  match v with
  | VResult r => ret r
  | VStr _ => raise "string indices must be integers, not 'str'"
  | VInt _ => raise "'int' object is not subscriptable"
  | VTime _ => raise "'float' object is not subscriptable"
  end.

Definition recommendations : list string :=
  ["建議進一步驗證化學結構的準確性";
   "考慮與現有專利進行比較分析";
   "評估商業化可行性和市場潛力"].

Definition executive_summary (result : AnalysisResult) : string :=
  "本專利共識別出 " +:+ pretty (length (chemical_formulas result)) +:+
  " 個化學式和 " +:+ pretty (length (smiles_structures result)) +:+
  " 個化學結構，分析了 " +:+ pretty (pages_processed result) +:+ " 頁內容。".

(** [now] is [time.strftime('%Y-%m-%d %H:%M:%S')]. *)
Definition generate_report (tasks : registry) (now : string) (task_id : string) : response :=
  try_except
    match tasks !! task_id with
    | None => mret not_found
    | Some task =>
        status ← getitem task "status";
        if negb (is_str status "completed") then
          mret (error_response "分析尚未完成，無法生成報告" 400)
        else
          stored ← getitem task "result";
          result ← subscriptable stored;
          summary ← match analysis_summary result with
                    | Some s => mret s
                    | None => raise (KeyError "total_compounds")
                    end;
          mret (Report {|
            rep_task_id := task_id;
            rep_report_title := "專利分析報告";
            rep_filename := get task "filename" (VStr "未知檔案");
            rep_generated_at := now;
            rep_executive_summary := executive_summary result;
            rep_formulas := chemical_formulas result;
            rep_smiles := smiles_structures result;
            rep_count := total_compounds summary;
            rep_types := compound_types summary;
            rep_patent_elements := patent_elements result;
            rep_pages_analyzed := pages_processed result;
            rep_images_extracted := images_extracted result;
            rep_patent_strength := patent_strength summary;
            rep_recommendations := recommendations |}, 200%Z)
    end
    (λ e, error_response ("報告生成失敗: " +:+ e) 500).

(** *** The running server

    A request to [/upload] is served in one step; a thread advances by one
    statement at a time, in any interleaving with the other threads and with
    the uploads.  [uuid.uuid4()] is taken to return an identifier that is
    not in the registry. *)

Definition initial (fs : filesystem) : world :=
  {| analysis_tasks := ∅; files := fs; threads := []; status_log := [] |}.

Inductive step : world → world → Prop :=
  | step_upload request_files env σ :
      analysis_tasks σ !! env_task_id env = None →
      step σ (upload_patent request_files env σ).2
  | step_thread i σ :
      i < length (threads σ) →
      step σ (thread_step i σ).

Inductive reachable : world → Prop :=
  | reach_initial fs : reachable (initial fs)
  | reach_step σ σ' : reachable σ → step σ σ' → reachable σ'.

(** The status values written for one task, oldest first. *)
Definition status_writes (task_id : string) (σ : world) : list value :=
  (filter (λ p, p.1 = task_id) (status_log σ)).*2.

End Routes.

(** * Properties of the analyzer *)

Module AnalyzerProps.
Import Py Re Analyzer.

(** ** Formula extraction *)

Section FormulaFacts.
Context (db : unicode_db).

Lemma mem_true (x : text) (l : list text) : mem x l = true ↔ x ∈ l.
Proof.
  unfold mem, text_eqb. rewrite existsb_exists. split.
  - intros (y & Hy & Heq). apply bool_decide_eq_true in Heq. subst y.
    by apply list_elem_of_In.
  - intros Hx. exists x. split; [by apply list_elem_of_In|].
    by apply bool_decide_eq_true.
Qed.

Lemma mem_false (x : text) (l : list text) : mem x l = false ↔ x ∉ l.
Proof.
  rewrite <- mem_true. destruct (mem x l); split; congruence.
Qed.

(** The inner loop only appends strings that are not yet in the list. *)
Lemma collect_NoDup (matches acc : list text) :
  NoDup acc → NoDup (collect db matches acc).
Proof.
  revert acc. induction matches as [|mt rest IH]; intros acc Hacc; simpl; [done|].
  apply IH.
  destruct (_ && _); [|done].
  destruct (mem mt acc) eqn:Hmem; simpl; [done|].
  apply NoDup_app. split_and!; [done| |apply NoDup_singleton].
  intros x Hx Hin. apply list_elem_of_singleton in Hin. subst x.
  by apply mem_false in Hmem.
Qed.

Lemma collect_patterns_NoDup (ps : list regex) (t : text) (acc : list text) :
  NoDup acc → NoDup (collect_patterns db ps t acc).
Proof.
  revert acc. induction ps as [|p ps IH]; intros acc Hacc; simpl; [done|].
  by apply IH, collect_NoDup.
Qed.

Lemma formula_candidates_NoDup (t : text) : NoDup (formula_candidates db t).
Proof. apply collect_patterns_NoDup, NoDup_nil_2. Qed.

(** What is in the list stays in it, at its place. *)
Lemma collect_prefix (matches acc : list text) :
  acc `prefix_of` collect db matches acc.
Proof.
  revert acc. induction matches as [|mt rest IH]; intros acc; simpl; [done|].
  etrans; [|apply IH].
  destruct (_ && _); [|done].
  destruct (negb _); [|done]. by apply prefix_app_r.
Qed.

Lemma collect_patterns_prefix (ps : list regex) (t : text) (acc : list text) :
  acc `prefix_of` collect_patterns db ps t acc.
Proof.
  revert acc. induction ps as [|p ps IH]; intros acc; simpl; [done|].
  etrans; [apply collect_prefix|apply IH].
Qed.

(** A match that passes the two tests is in the list after the loop. *)
Lemma collect_elem (matches acc : list text) (mt : text) :
  mt ∈ matches →
  2 ≤ length mt →
  _is_likely_chemical_formula db mt = true →
  mt ∈ collect db matches acc.
Proof.
  intros Hin Hlen Hlik. revert acc.
  induction matches as [|x rest IH]; intros acc; [by apply elem_of_nil in Hin|].
  apply elem_of_cons in Hin as [->|Hin]; cbn [collect]; [|by apply IH].
  apply Nat.leb_le in Hlen. rewrite Hlen, Hlik. cbn [andb].
  eapply elem_of_prefix; [|apply collect_prefix].
  destruct (mem x acc) eqn:Hmem; simpl.
  - by apply mem_true.
  - apply elem_of_app. right. by apply list_elem_of_singleton.
Qed.

(** No pattern matches on the empty text. *)
Lemma findall_empty_basic : findall db (pattern_basic db) [] = [].
Proof. reflexivity. Qed.
Lemma findall_empty_brackets : findall db (pattern_brackets db) [] = [].
Proof. reflexivity. Qed.
Lemma findall_empty_organic : findall db (pattern_organic db) [] = [].
Proof. reflexivity. Qed.

Lemma extract_empty : _extract_chemical_formulas db [] = [].
Proof. reflexivity. Qed.

Lemma extract_NoDup (t : text) : NoDup (_extract_chemical_formulas db t).
Proof.
  unfold _extract_chemical_formulas.
  eapply sublist_NoDup; [apply formula_candidates_NoDup|apply sublist_take].
Qed.

Lemma extract_length (t : text) : length (_extract_chemical_formulas db t) ≤ 20.
Proof. unfold _extract_chemical_formulas. rewrite length_take. lia. Qed.
End FormulaFacts.

(** ** The patterns on whole tokens *)

(** The tables agree with the ASCII ones below 128, and a decimal digit is
    alphanumeric: both hold of the tables of CPython. *)
Record ascii_compatible (db : unicode_db) : Prop := {
  compat_decimal : ∀ c, (c < 128)%N → is_decimal db c = is_decimal ascii_db c;
  compat_alnum : ∀ c, (c < 128)%N → is_alnum db c = is_alnum ascii_db c;
  compat_digit : ∀ c, (c < 128)%N → is_digit db c = is_digit ascii_db c;
  compat_upper : ∀ c, (c < 128)%N → to_upper db c = to_upper ascii_db c;
  decimal_alnum : ∀ c, is_decimal db c = true → is_alnum db c = true
}.

(** The class of the character a pattern has to start with, if any. *)
Fixpoint first_class (r : regex) : option (char → bool) :=
  match r with
  | Cls p => Some p
  | Seq r1 _ => first_class r1
  | Plus r1 => first_class r1
  | _ => None
  end.

(** The input is empty or starts with a character outside [p]. *)
Definition head_fails (p : char → bool) (s : text) : Prop :=
  match s with
  | [] => True
  | c :: _ => p c = false
  end.

(** Every class of the pattern lies within [P]. *)
Fixpoint classes_within (P : char → Prop) (r : regex) : Prop :=
  match r with
  | Cls p => ∀ c, p c = true → P c
  | Seq r1 r2 => classes_within P r1 ∧ classes_within P r2
  | Opt r1 | Star r1 | Plus r1 => classes_within P r1
  | WordB => True
  end.

(** No word character stands just before the end of [pre] (or, when [pre]
    is empty, before it), and none at the start of [post]. *)
Definition clear_before (db : unicode_db) (prev : option char) (pre : text) : Prop :=
  match last pre with
  | Some c => is_word db c = false
  | None => word_before db prev = false
  end.

Definition clear_after (db : unicode_db) (post : text) : Prop :=
  match post with
  | [] => True
  | c :: _ => is_word db c = false
  end.

(** [tok] stands in [t] as a whole token. *)
Definition whole_token (db : unicode_db) (tok t : text) : Prop :=
  ∃ pre post, t = pre ++ tok ++ post ∧ clear_before db None pre ∧ clear_after db post.

(** [tok] is in the list, or a string that holds it, or a part of it. *)
Definition appears (tok : text) (l : list text) : bool :=
  existsb (λ x, contains tok x || contains x tok) l.

Section MatcherSteps.
Context (db : unicode_db) {A : Type}.
Implicit Types (k : @kont A) (x : A).

Lemma m_miss r p prev s k :
  first_class r = Some p → head_fails p s → m db r prev s k = None.
Proof.
  revert prev s k.
  induction r as [q|r1 IH1 r2 _|r1 _|r1 _|r1 IH1|]; intros prev s k; simpl; try done.
  - intros [= ->] Hs. destruct s as [|c s]; [done|]. simpl in Hs. by rewrite Hs.
  - intros Hf Hs. by apply IH1.
  - intros Hf Hs. by apply IH1.
Qed.

Lemma m_cls p c prev s k x :
  p c = true → k (Some c) s = Some x → m db (Cls p) prev (c :: s) k = Some x.
Proof. intros Hp Hk. simpl. by rewrite Hp. Qed.

Lemma m_seq r1 r2 prev s k x :
  m db r1 prev s (λ prev' s', m db r2 prev' s' k) = Some x →
  m db (Seq r1 r2) prev s k = Some x.
Proof. done. Qed.

Lemma m_opt_hit r prev s k x :
  m db r prev s k = Some x → m db (Opt r) prev s k = Some x.
Proof. intros H. simpl. by rewrite H. Qed.

Lemma m_opt_miss r p prev s k x :
  first_class r = Some p → head_fails p s → k prev s = Some x →
  m db (Opt r) prev s k = Some x.
Proof. intros Hf Hs Hk. simpl. by rewrite (m_miss r p). Qed.

Lemma m_plus r prev s k x :
  m db r prev s (λ prev' s', star (m db r) (S (length s')) prev' s' k) = Some x →
  m db (Plus r) prev s k = Some x.
Proof. done. Qed.

Lemma star_miss r p f prev s k x :
  first_class r = Some p → head_fails p s → k prev s = Some x →
  star (m db r) f prev s k = Some x.
Proof. intros Hf Hs Hk. destruct f; simpl; [done|]. by rewrite (m_miss r p). Qed.

Lemma m_star_hit r prev s k x :
  m db r prev s (λ prev' s',
     if length s' <? length s then star (m db r) (length s) prev' s' k else None) = Some x →
  m db (Star r) prev s k = Some x.
Proof. intros H. simpl. by rewrite H. Qed.

Lemma m_wordb prev s k x :
  xorb (word_before db prev) (word_after db s) = true → k prev s = Some x →
  m db WordB prev s k = Some x.
Proof. intros Hb Hk. simpl. by rewrite Hb. Qed.

Lemma shorter_true {B} (s' s : text) (a b : B) :
  length s' < length s → (if length s' <? length s then a else b) = a.
Proof. intros H. apply Nat.ltb_lt in H. by rewrite H. Qed.
End MatcherSteps.

(** A match only takes characters of the classes of the pattern. *)
Section MatcherConsumes.
Context (db : unicode_db) {A : Type} (P : char → Prop).
Implicit Types (k : @kont A) (x : A).

Definition consumes (mr : option char → text → @kont A → option A) : Prop :=
  ∀ prev s k x, mr prev s k = Some x →
    ∃ w s' prev', s = w ++ s' ∧ Forall P w ∧ k prev' s' = Some x.

Lemma star_consumes mr fuel : consumes mr → consumes (star mr fuel).
Proof.
  intros Hmr. induction fuel as [|f IH]; intros prev s k x; simpl.
  - intros Hk. by exists [], s, prev.
  - destruct (mr prev s _) as [y|] eqn:Hbody.
    + intros [= ->]. apply Hmr in Hbody as (w1 & s1 & p1 & -> & Hw1 & Hrest).
      destruct (_ <? _); [|done].
      apply IH in Hrest as (w2 & s2 & p2 & -> & Hw2 & Hk).
      exists (w1 ++ w2), s2, p2. split_and!; [by rewrite app_assoc|by apply Forall_app|done].
    + intros Hk. by exists [], s, prev.
Qed.

Lemma m_consumes r : classes_within P r → consumes (m db r).
Proof.
  induction r as [q|r1 IH1 r2 IH2|r1 IH1|r1 IH1|r1 IH1|]; cbn [m classes_within];
    intros Hr prev s k x.
  - destruct s as [|c s]; [done|]. destruct (q c) eqn:Hq; [|done].
    intros Hk. exists [c], s, (Some c). split_and!; [done| |done].
    constructor; [by apply Hr|constructor].
  - destruct Hr as [Hr1 Hr2].
    intros (w1 & s1 & p1 & -> & Hw1 & Hrest)%(IH1 Hr1).
    apply (IH2 Hr2) in Hrest as (w2 & s2 & p2 & -> & Hw2 & Hk).
    exists (w1 ++ w2), s2, p2. split_and!; [by rewrite app_assoc|by apply Forall_app|done].
  - destruct (m db r1 prev s k) as [y|] eqn:Hbody.
    + intros [= ->]. by apply (IH1 Hr) in Hbody.
    + intros Hk. by exists [], s, prev.
  - exact (star_consumes (m db r1) (S (length s)) (IH1 Hr) prev s k x).
  - intros (w1 & s1 & p1 & -> & Hw1 & Hrest)%(IH1 Hr).
    apply (star_consumes _ _ (IH1 Hr)) in Hrest as (w2 & s2 & p2 & -> & Hw2 & Hk).
    exists (w1 ++ w2), s2, p2. split_and!; [by rewrite app_assoc|by apply Forall_app|done].
  - destruct (xorb _ _); [|done]. intros Hk. by exists [], s, prev.
Qed.
End MatcherConsumes.

Lemma match_here_consumes (db : unicode_db) (P : char → Prop) r prev s prev' s' :
  classes_within P r → match_here db r prev s = Some (prev', s') →
  ∃ w, s = w ++ s' ∧ Forall P w.
Proof.
  intros Hr Hm. apply (m_consumes db P r Hr) in Hm as (w & s1 & p1 & -> & Hw & [= _ <-]).
  by exists w.
Qed.

Ltac ranges :=
  simpl in *; unfold in_range in *; simpl in *;
  repeat match goal with
         | H : context [(?a <=? ?b)%N] |- _ => destruct (N.leb_spec a b); simpl in H
         | |- context [(?a <=? ?b)%N] => destruct (N.leb_spec a b); simpl
         end; try done; try lia.

Lemma ascii_db_compatible : ascii_compatible ascii_db.
Proof.
  split; try done. intros c Hc. simpl in *. by rewrite Hc.
Qed.

Section Tokens.
Context (db : unicode_db) (Hdb : ascii_compatible db).

Lemma word_ascii c : (c < 128)%N → is_word db c = is_word ascii_db c.
Proof. intros H. unfold is_word. by rewrite (compat_alnum db Hdb). Qed.

Lemma nonword_classes c :
  is_word db c = false →
  is_decimal db c = false ∧ in_range 65 90 c = false ∧ in_range 97 122 c = false.
Proof.
  unfold is_word. intros [Hal _]%orb_false_iff. split_and!.
  - destruct (is_decimal db c) eqn:Hd; [|done].
    apply (decimal_alnum db Hdb) in Hd. congruence.
  - destruct (in_range 65 90 c) eqn:Hr; [|done].
    rewrite (compat_alnum db Hdb) in Hal by ranges. ranges.
  - destruct (in_range 97 122 c) eqn:Hr; [|done].
    rewrite (compat_alnum db Hdb) in Hal by ranges. ranges.
Qed.

Lemma clear_heads post :
  clear_after db post →
  head_fails (is_decimal db) post ∧ head_fails (in_range 65 90) post ∧
  head_fails (in_range 97 122) post ∧ word_after db post = false.
Proof.
  destruct post as [|c post]; simpl; [done|]. intros H.
  by destruct (nonword_classes c H) as (? & ? & ?).
Qed.

(** The classes of the first pattern are classes of word characters. *)
Lemma pattern_basic_word_classes :
  classes_within (λ c, is_word db c = true) (pattern_basic db).
Proof.
  assert (∀ c, in_range 65 90 c = true → is_word db c = true) as Hu.
  { intros c Hc. unfold is_word. rewrite (compat_alnum db Hdb) by ranges. ranges. }
  assert (∀ c, in_range 97 122 c = true → is_word db c = true) as Hl.
  { intros c Hc. unfold is_word. rewrite (compat_alnum db Hdb) by ranges. ranges. }
  assert (∀ c, is_decimal db c = true → is_word db c = true) as Hd.
  { intros c Hc. unfold is_word. by rewrite (decimal_alnum db Hdb). }
  simpl. by split_and!.
Qed.

Ltac hit :=
  apply m_cls;
    [first [reflexivity | rewrite (compat_decimal db Hdb) by done; reflexivity]
    |cbv beta].
Ltac miss lem :=
  eapply lem;
    [reflexivity
    |simpl; first [reflexivity
                  | rewrite (compat_decimal db Hdb) by done; reflexivity
                  | assumption]
    |cbv beta].
Ltac boundary :=
  apply m_wordb;
    [simpl; rewrite ?word_ascii by done;
     repeat match goal with H : _ = false |- _ => rewrite H end; reflexivity
    |cbv beta].

(** At a token C6H6 the first pattern matches the token and no more. *)
Lemma match_C6H6 prev post :
  word_before db prev = false → clear_after db post →
  match_here db (pattern_basic db) prev (str "C6H6" ++ post) = Some (Some 54%N, post).
Proof.
  intros Hprev Hpost. destruct (clear_heads post Hpost) as (Hd & Hu & Hl & Hw).
  change (str "C6H6" ++ post) with (67%N :: 54%N :: 72%N :: 54%N :: post).
  unfold match_here, pattern_basic, element, upper_AZ, lower_az, digit.
  apply m_seq. boundary.
  apply m_seq, m_seq. hit. apply m_seq. miss m_opt_miss.
  apply m_opt_hit, m_plus. hit. miss star_miss.
  apply m_seq, m_star_hit.
  apply m_seq. hit. apply m_seq. miss m_opt_miss.
  apply m_opt_hit, m_plus. hit. miss star_miss.
  rewrite shorter_true by (simpl; lia).
  miss star_miss. boundary. reflexivity.
Qed.

(** At a token NaCl the first pattern matches the token and no more. *)
Lemma match_NaCl prev post :
  word_before db prev = false → clear_after db post →
  match_here db (pattern_basic db) prev (str "NaCl" ++ post) = Some (Some 108%N, post).
Proof.
  intros Hprev Hpost. destruct (clear_heads post Hpost) as (Hd & Hu & Hl & Hw).
  change (str "NaCl" ++ post) with (78%N :: 97%N :: 67%N :: 108%N :: post).
  unfold match_here, pattern_basic, element, upper_AZ, lower_az, digit.
  apply m_seq. boundary.
  apply m_seq, m_seq. hit. apply m_seq. apply m_opt_hit. hit.
  miss m_opt_miss.
  apply m_seq, m_star_hit.
  apply m_seq. hit. apply m_seq. apply m_opt_hit. hit.
  miss m_opt_miss.
  rewrite shorter_true by (simpl; lia).
  miss star_miss. boundary. reflexivity.
Qed.

Lemma clear_before_tail prev c pre :
  clear_before db prev (c :: pre) → clear_before db (Some c) pre.
Proof.
  unfold clear_before. destruct pre as [|c' pre]; [done|].
  rewrite last_cons_cons. destruct (last (c' :: pre)) eqn:E; [done|].
  by apply last_None in E.
Qed.

Lemma clear_before_not_word prev pre :
  pre ≠ [] → clear_before db prev pre → ¬ Forall (λ c, is_word db c = true) pre.
Proof.
  intros Hne Hc Hall. unfold clear_before in Hc.
  destruct (last pre) as [c|] eqn:Hlast.
  - apply last_Some_elem_of in Hlast. rewrite Forall_forall in Hall.
    specialize (Hall c Hlast). congruence.
  - by apply last_None in Hlast.
Qed.

(** The scan of [findall] reaches a whole token at its first character: a
    match that starts earlier is made of word characters and ends before the
    character that stands in front of the token. *)
Lemma scan_finds r tok post :
  classes_within (λ c, is_word db c = true) r →
  tok ≠ [] →
  (∀ prev, word_before db prev = false →
     match_here db r prev (tok ++ post) = Some (last tok, post)) →
  ∀ fuel pre prev,
    length (pre ++ tok ++ post) < fuel →
    clear_before db prev pre →
    tok ∈ findall_from db r fuel prev (pre ++ tok ++ post).
Proof.
  intros Hr Htok Hmatch. induction fuel as [|f IH]; intros pre prev Hfuel Hclear; [lia|].
  assert (∀ c pre', pre = c :: pre' →
            tok ∈ findall_from db r f (Some c) (pre' ++ tok ++ post)) as Hadvance.
  { intros c pre' ->. apply IH; [simpl in Hfuel; lia|by eapply clear_before_tail]. }
  cbn [findall_from].
  destruct pre as [|c0 pre'].
  - simpl. rewrite (Hmatch prev Hclear).
    replace (length (tok ++ post) - length post) with (length tok)
      by (rewrite length_app; lia).
    rewrite take_app_length. destruct tok as [|t0 tok']; [done|]. apply list_elem_of_here.
  - specialize (Hadvance c0 pre' eq_refl).
    destruct (match_here db r prev ((c0 :: pre') ++ tok ++ post)) as [[p' s']|] eqn:Hm;
      [|by simpl].
    destruct (match_here_consumes db _ r _ _ _ _ Hr Hm) as (w & Hsplit & Hw).
    rewrite Hsplit.
    replace (length (w ++ s') - length s') with (length w) by (rewrite length_app; lia).
    rewrite take_app_length. rewrite <- Hsplit.
    destruct w as [|a w'].
    + simpl. by apply list_elem_of_further.
    + apply list_elem_of_further.
      apply app_eq_inv in Hsplit as [(k & Hpre & Hrest)|(k & Hw' & Hrest)].
      * destruct k as [|k0 k'].
        { rewrite app_nil_r in Hpre.
          destruct (clear_before_not_word prev (c0 :: pre') ltac:(done) Hclear).
          by rewrite Hpre. }
        rewrite Hrest. apply IH.
        -- rewrite Hpre in Hfuel. rewrite !length_app in Hfuel. simpl in Hfuel.
           rewrite !length_app in *. simpl. lia.
        -- unfold clear_before in *. rewrite Hpre in Hclear.
           rewrite last_app_cons in Hclear.
           destruct (last (k0 :: k')) eqn:E; [done|]. by apply last_None in E.
      * destruct (clear_before_not_word prev (c0 :: pre') ltac:(done) Hclear).
        rewrite Hw' in Hw. by apply Forall_app in Hw as [? _].
Qed.

Lemma likely_C6H6 : _is_likely_chemical_formula db (str "C6H6") = true.
Proof.
  unfold _is_likely_chemical_formula, upper.
  change (str "C6H6") with [67%N; 54%N; 72%N; 54%N]. simpl.
  rewrite !(compat_upper db Hdb), !(compat_digit db Hdb) by done. reflexivity.
Qed.

Lemma likely_NaCl : _is_likely_chemical_formula db (str "NaCl") = true.
Proof.
  unfold _is_likely_chemical_formula, upper.
  change (str "NaCl") with [78%N; 97%N; 67%N; 108%N]. simpl.
  rewrite !(compat_upper db Hdb), !(compat_digit db Hdb) by done. reflexivity.
Qed.

(** A whole token C6H6 or NaCl is among the candidates. *)
Lemma token_is_candidate (tok t : text) :
  tok = str "C6H6" ∨ tok = str "NaCl" →
  whole_token db tok t →
  tok ∈ formula_candidates db t.
Proof.
  intros Htok (pre & post & -> & Hpre & Hpost).
  unfold formula_candidates, formula_patterns.
  change (collect_patterns db (?p :: ?ps) ?t ?acc)
    with (collect_patterns db ps t (collect db (findall db p t) acc)).
  eapply elem_of_prefix; [|apply collect_patterns_prefix].
  assert (tok ∈ findall db (pattern_basic db) (pre ++ tok ++ post)) as Hfound.
  { unfold findall. apply scan_finds; [apply pattern_basic_word_classes| | |lia|done].
    - by destruct Htok as [-> | ->].
    - intros prev Hprev. destruct Htok as [-> | ->].
      + by apply match_C6H6.
      + by apply match_NaCl. }
  apply collect_elem; [done| |].
  - by destruct Htok as [-> | ->]; simpl; lia.
  - destruct Htok as [-> | ->]; [apply likely_C6H6|apply likely_NaCl].
Qed.
End Tokens.

(** ** Field extraction *)

Section FieldFacts.
Context (re_search : string → text → option text) (db : unicode_db).

(** The pattern gives no match, or a content of at most five characters. *)
Definition trivial (full_text : text) (pattern : string) : Prop :=
  ∀ g, re_search pattern full_text = Some g → length (strip db g) ≤ 5.

Lemma content_test (content : text) :
  negb (bool_decide (content = [])) && (5 <? length content) = true
  ↔ 5 < length content.
Proof.
  rewrite andb_true_iff, negb_true_iff, bool_decide_eq_false, Nat.ltb_lt.
  split; [tauto|]. intros H. split; [|done]. intros ->. simpl in H. lia.
Qed.

Lemma first_content_None (pattern_list : list string) (t : text) :
  first_content re_search db pattern_list t = None →
  Forall (trivial t) pattern_list.
Proof.
  induction pattern_list as [|p rest IH]; simpl; [by constructor|].
  destruct (re_search p t) as [g|] eqn:Hs.
  - destruct (_ && _) eqn:Htest; [done|]. intros Hrest.
    constructor; [|by apply IH].
    intros g' Hg'. assert (g' = g) as -> by congruence.
    destruct (decide (5 < length (strip db g))) as [Hlt|]; [|lia].
    apply content_test in Hlt. congruence.
  - intros Hrest. constructor; [|by apply IH]. intros g' Hg'. congruence.
Qed.

Lemma first_content_Some (pattern_list : list string) (t v : text) :
  first_content re_search db pattern_list t = Some v →
  ∃ pre pattern post g,
    pattern_list = pre ++ pattern :: post ∧
    Forall (trivial t) pre ∧
    re_search pattern t = Some g ∧
    5 < length (strip db g) ∧
    v = take 500 (strip db g).
Proof.
  induction pattern_list as [|p rest IH]; simpl; [done|].
  destruct (re_search p t) as [g|] eqn:Hs.
  - destruct (_ && _) eqn:Htest.
    + intros [= <-]. exists [], p, rest, g. split_and!; try done.
      by apply content_test.
    + intros (pre & q & post & g' & -> & Hpre & Hq & Hlen & ->)%IH.
      exists (p :: pre), q, post, g'. split_and!; try done.
      constructor; [|done]. intros g'' Hg''. assert (g'' = g) as -> by congruence.
      destruct (decide (5 < length (strip db g))) as [Hlt|]; [|lia].
      apply content_test in Hlt. congruence.
  - intros (pre & q & post & g' & -> & Hpre & Hq & Hlen & ->)%IH.
    exists (p :: pre), q, post, g'. split_and!; try done.
    constructor; [|done]. intros g'' Hg''. congruence.
Qed.

Lemma take_500_length (content : text) :
  5 < length content → 5 < length (take 500 content) ≤ 500.
Proof. intros H. rewrite length_take. lia. Qed.

(** The outer loop stores, for a field of the table, what the inner loop
    found, and leaves the other keys alone. *)
Lemma elements_loop_other (ps : list (string * list string)) (t : text)
    (acc : gmap string text) (field : string) :
  field ∉ ps.*1 →
  elements_loop re_search db ps t acc !! field = acc !! field.
Proof.
  revert acc. induction ps as [|[f pl] rest IH]; intros acc Hnotin; simpl; [done|].
  simpl in Hnotin. apply not_elem_of_cons in Hnotin as [Hne Hrest].
  rewrite IH by done.
  destruct (first_content _ _ _ _); [|done]. by rewrite lookup_insert_ne.
Qed.

Lemma elements_loop_field (ps : list (string * list string)) (t : text)
    (acc : gmap string text) (field : string) (pattern_list : list string) :
  NoDup ps.*1 →
  (field, pattern_list) ∈ ps →
  elements_loop re_search db ps t acc !! field =
    match first_content re_search db pattern_list t with
    | Some v => Some v
    | None => acc !! field
    end.
Proof.
  revert acc. induction ps as [|[f pl] rest IH]; intros acc Hnd Hin;
    [by apply elem_of_nil in Hin|].
  simpl in Hnd. apply NoDup_cons in Hnd as [Hf Hnd].
  apply elem_of_cons in Hin as [[= <- <-]|Hin]; simpl.
  - rewrite elements_loop_other by done.
    destruct (first_content _ _ _ _); [|done]. by rewrite lookup_insert_eq.
  - rewrite (IH _ Hnd Hin).
    destruct (first_content re_search db pattern_list t); [done|].
    assert (f ≠ field) as Hne.
    { intros ->. apply Hf. apply list_elem_of_fmap. by exists (field, pattern_list). }
    destruct (first_content _ _ _ _); [|done]. by rewrite lookup_insert_ne.
Qed.

Lemma patterns_NoDup : NoDup patterns.*1.
Proof. apply (bool_decide_unpack _). by vm_compute. Qed.

Lemma stored_field_in_table (t : text) (field : string) (v : text) :
  _extract_patent_elements re_search db t !! field = Some v →
  ∃ pattern_list, (field, pattern_list) ∈ patterns ∧
    first_content re_search db pattern_list t = Some v.
Proof.
  unfold _extract_patent_elements. intros Hv.
  destruct (decide (field ∈ patterns.*1)) as [Hin|Hnotin].
  - apply list_elem_of_fmap in Hin as ([f pl] & -> & Hin). exists pl. split; [done|].
    rewrite (elements_loop_field _ _ _ _ _ patterns_NoDup Hin) in Hv.
    simpl in *. destruct (first_content _ _ _ _); [done|].
    by rewrite lookup_empty in Hv.
  - rewrite elements_loop_other in Hv by done. by rewrite lookup_empty in Hv.
Qed.
End FieldFacts.

(** ** Text extraction *)

(** The page loads and its text is [t]. *)
Definition page_gives (p : exc + page) (t : text) : Prop :=
  ∃ pg, p = inr pg ∧ page_text pg = inr t.

Definition page_fails (p : exc + page) : Prop :=
  match p with
  | inl _ => True
  | inr pg => ∃ e, page_text pg = inl e
  end.

(** Some call on the parsing library raises: opening the document, loading
    a page, reading its text or closing the document. *)
Definition parsing_fails (f : pdf) : Prop :=
  match f with
  | inl _ => True
  | inr d => Exists page_fails (doc_pages d) ∨ ∃ e, doc_close d = inl e
  end.

Lemma text_loop_ok (pages : list (exc + page)) (texts : list text) (acc : text * nat) :
  Forall2 page_gives pages texts →
  text_loop pages acc =
    inr (acc.1 ++ concat ((λ t, t ++ newline) <$> texts), acc.2 + length pages).
Proof.
  intros H. revert acc. induction H as [|p t pages texts (pg & -> & Ht) _ IH]; intros acc.
  - simpl. rewrite app_nil_r, Nat.add_0_r. by destruct acc.
  - simpl. rewrite Ht. simpl. rewrite IH. simpl.
    rewrite <- !app_assoc. do 2 f_equal. lia.
Qed.

Lemma text_loop_fails (pages : list (exc + page)) (acc : text * nat) :
  Exists page_fails pages → ∃ e, text_loop pages acc = inl e.
Proof.
  intros H. revert acc. induction pages as [|p pages IH]; intros acc.
  - by apply Exists_nil in H.
  - simpl. destruct p as [e|pg]; [by exists e|]. simpl.
    destruct (page_text pg) as [e|t] eqn:Ht; [by exists e|]. simpl.
    apply IH. apply Exists_cons in H as [H|H]; [|done].
    destruct H as [e He]. congruence.
Qed.

(** ** Image extraction *)

(** One image changes nothing, or is counted, or is counted and gives one
    string. *)
Lemma image_step_cases (acc : nat * list text) (img : image) :
  image_step acc img = acc ∨
  image_step acc img = (S acc.1, acc.2) ∨
  ∃ smiles, image_step acc img = (S acc.1, acc.2 ++ [smiles]).
Proof.
  unfold image_step. destruct acc as [n l]; simpl.
  destruct (img_pixmap img) as [e|[c a]]; [by left|].
  destruct (_ <? _)%Z; [|by left].
  destruct (img_save img); [by left|].
  destruct (_analyze_chemical_structure_image img) as [s|]; [|by right; left].
  destruct (bool_decide _); [by right; left|]. right; right. by exists s.
Qed.

Lemma image_step_le (acc : nat * list text) (img : image) :
  length acc.2 ≤ acc.1 → length (image_step acc img).2 ≤ (image_step acc img).1.
Proof.
  intros H. destruct (image_step_cases acc img) as [->|[->|[s ->]]]; simpl; [done|lia|].
  rewrite length_app. simpl. lia.
Qed.

Lemma foldl_image_step_le (image_list : list image) (acc : nat * list text) :
  length acc.2 ≤ acc.1 →
  length (foldl image_step acc image_list).2 ≤ (foldl image_step acc image_list).1.
Proof.
  revert acc. induction image_list as [|img rest IH]; intros acc H; simpl; [done|].
  by apply IH, image_step_le.
Qed.

Lemma images_loop_le (pages : list (exc + page)) (acc r : nat * list text) :
  length acc.2 ≤ acc.1 → images_loop pages acc = inr r → length r.2 ≤ r.1.
Proof.
  revert acc. induction pages as [|p pages IH]; intros acc H; simpl.
  - by intros [= <-].
  - destruct p as [e|pg]; [done|]. simpl.
    destruct (page_images pg) as [e|image_list]; [done|]. simpl.
    by apply IH, foldl_image_step_le.
Qed.

Lemma extract_images_le (f : pdf) (mkdtemp : exc + string) :
  length (_extract_images_and_analyze f mkdtemp).2 ≤ (_extract_images_and_analyze f mkdtemp).1.
Proof.
  unfold _extract_images_and_analyze.
  destruct f as [e|d]; simpl; [lia|].
  destruct mkdtemp as [e|dir]; simpl; [lia|].
  destruct (images_loop (doc_pages d) (0, [])) as [e|r] eqn:Hloop; simpl; [lia|].
  destruct (doc_close d); simpl; [lia|].
  eapply images_loop_le; [|done]. simpl; lia.
Qed.

(** ** The claims about the analyzer *)

(** C5.  Whatever the text and whatever [re.search] finds, every value that
    field extraction stores has more than 5 and at most 500 characters; and
    for each field of the table, either no pattern of its list gives a
    content of more than 5 characters and nothing is stored, or the stored
    value is the content of the first pattern that does, cut to 500
    characters: the patterns before it gave nothing usable and the ones
    after it do not matter. *)
Theorem field_extraction_first_nontrivial_capped
    (re_search : string → text → option text) (db : unicode_db) (full_text : text)
    (field : string) (pattern_list : list string) :
  (field, pattern_list) ∈ patterns →
  let stored := _extract_patent_elements re_search db full_text in
  (∀ f v, stored !! f = Some v → 5 < length v ≤ 500) ∧
  ((stored !! field = None ∧ Forall (trivial re_search db full_text) pattern_list) ∨
   (∃ pre pattern post g,
      pattern_list = pre ++ pattern :: post ∧
      Forall (trivial re_search db full_text) pre ∧
      re_search pattern full_text = Some g ∧
      5 < length (strip db g) ∧
      stored !! field = Some (take 500 (strip db g)))).
Proof.
  intros Hin stored. split.
  - intros f v (pl & _ & Hfirst)%stored_field_in_table.
    apply first_content_Some in Hfirst as (pre & p & post & g & _ & _ & _ & Hlen & ->).
    by apply take_500_length.
  - assert (stored !! field = first_content re_search db pattern_list full_text) as Hst.
    { unfold stored, _extract_patent_elements.
      rewrite (elements_loop_field _ _ _ _ _ _ _ patterns_NoDup Hin).
      destruct (first_content _ _ _ _); [done|apply lookup_empty]. }
    destruct (first_content re_search db pattern_list full_text) as [v|] eqn:Hfirst.
    + right. apply first_content_Some in Hfirst as (pre & p & post & g & ? & ? & ? & ? & ->).
      exists pre, p, post, g. by split_and!.
    + left. split; [done|]. by apply first_content_None.
Qed.

(** A stand-in for [re.search] on one document: the first title pattern
    captures two characters, the third one a long title. *)
Definition demo_search (pattern : string) (full_text : text) : option text :=
  if bool_decide (pattern = "Title of Invention\s*:?\s*(.*?)(?:\n|$)") then Some (str " ab ")
  else if bool_decide (pattern = "TITLE\s*:?\s*(.*?)(?:\n|$)") then Some full_text
  else None.

Lemma field_extraction_witness :
  ("title", [ "Title of Invention\s*:?\s*(.*?)(?:\n|$)";
              "發明名稱\s*:?\s*(.*?)(?:\n|$)";
              "TITLE\s*:?\s*(.*?)(?:\n|$)";
              "標題\s*:?\s*(.*?)(?:\n|$)" ]) ∈ patterns ∧
  ∀ f v, _extract_patent_elements demo_search ascii_db
           (str "  Benzene derivatives  ") !! f = Some v → 5 < length v ≤ 500.
Proof.
  assert (("title", [ "Title of Invention\s*:?\s*(.*?)(?:\n|$)";
                      "發明名稱\s*:?\s*(.*?)(?:\n|$)";
                      "TITLE\s*:?\s*(.*?)(?:\n|$)";
                      "標題\s*:?\s*(.*?)(?:\n|$)" ]) ∈ patterns) as Hin
    by apply list_elem_of_here.
  split; [exact Hin|].
  exact (proj1 (field_extraction_first_nontrivial_capped demo_search ascii_db
                  (str "  Benzene derivatives  ") _ _ Hin)).
Defined.

(** C6.  When the document opens, every page loads and gives its text, and
    the document closes, text extraction returns the texts of all pages in
    order, each followed by a newline, and the number of pages; when any
    call on the parsing library raises, it returns the empty string and
    zero.  It returns in every case: the function is total. *)
Theorem text_extraction_all_pages_or_empty (f : pdf) :
  (∀ d texts,
     f = inr d →
     Forall2 page_gives (doc_pages d) texts →
     doc_close d = inr () →
     _extract_text_from_pdf f =
       (concat ((λ t, t ++ newline) <$> texts), length (doc_pages d))) ∧
  (parsing_fails f → _extract_text_from_pdf f = ([], 0)).
Proof.
  split.
  - intros d texts -> Hpages Hclose. unfold _extract_text_from_pdf. simpl.
    rewrite (text_loop_ok _ _ _ Hpages). simpl. by rewrite Hclose.
  - unfold parsing_fails, _extract_text_from_pdf.
    destruct f as [e|d]; simpl; [done|].
    intros [Hpage|[e Hclose]].
    + by destruct (text_loop_fails _ ([], 0) Hpage) as [e ->].
    + destruct (text_loop _ _); simpl; [done|]. by rewrite Hclose.
Qed.

(** A document of two pages, and one whose second page cannot be read. *)
Definition demo_page (t : string) : exc + page :=
  inr {| page_text := inr (str t); page_images := inr [] |}.

Definition demo_document : document :=
  {| doc_pages := [demo_page "Title: Benzene"; demo_page "C6H6"]; doc_close := inr () |}.

Definition demo_broken_document : document :=
  {| doc_pages := [demo_page "Title: Benzene"; inl "cannot load page 1"];
     doc_close := inr () |}.

Lemma text_extraction_witness :
  _extract_text_from_pdf (inr demo_document) =
    (str "Title: Benzene" ++ newline ++ str "C6H6" ++ newline, 2) ∧
  _extract_text_from_pdf (inr demo_broken_document) = ([], 0).
Proof.
  split.
  - refine (proj1 (text_extraction_all_pages_or_empty (inr demo_document))
              demo_document [str "Title: Benzene"; str "C6H6"] eq_refl _ eq_refl).
    repeat constructor; eexists; by split.
  - refine (proj2 (text_extraction_all_pages_or_empty (inr demo_broken_document)) _).
    left. apply Exists_cons_tl, Exists_cons_hd. exact I.
Defined.

(** C10.  For every document and every outcome of the calls made on it, the
    list of strings returned by image extraction is at most as long as the
    returned count of images; the same holds between [smiles_structures]
    and [images_extracted] of the result that [analyze_patent_pdf] returns.
    Every image leaves both unchanged, or adds one to the count, or adds one
    to the count and one string to the list. *)
Theorem smiles_at_most_images
    (re_search : string → text → option text) (db : unicode_db)
    (f : pdf) (mkdtemp : exc + string) :
  length (_extract_images_and_analyze f mkdtemp).2 ≤ (_extract_images_and_analyze f mkdtemp).1 ∧
  (∃ result, analyze_patent_pdf re_search db f mkdtemp = inr result ∧
     length (smiles_structures result) ≤ images_extracted result) ∧
  (∀ acc img,
     image_step acc img = acc ∨
     image_step acc img = (S acc.1, acc.2) ∨
     ∃ smiles, image_step acc img = (S acc.1, acc.2 ++ [smiles])).
Proof.
  split_and!.
  - apply extract_images_le.
  - unfold analyze_patent_pdf.
    destruct (_extract_text_from_pdf f) as [full_text pages].
    pose proof (extract_images_le f mkdtemp) as Hle.
    destruct (_extract_images_and_analyze f mkdtemp) as [images smiles_list].
    eexists. split; [reflexivity|]. exact Hle.
  - apply image_step_cases.
Qed.

(** C4, as the code has it.  For every text and all character tables,
    formula extraction returns the first twenty candidates, a list with no
    duplicate and at most 20 entries, and the empty list on the empty text.
    With tables that agree with CPython's on ASCII, a C6H6 or a NaCl that
    stands in the text as a whole token, with no word character just before
    it or just after it, is among the candidates, and so is in the returned
    list whenever at most 20 candidates were collected. *)
Theorem formula_extraction_properties (db : unicode_db) (t : text) :
  _extract_chemical_formulas db t = take 20 (formula_candidates db t) ∧
  NoDup (_extract_chemical_formulas db t) ∧
  length (_extract_chemical_formulas db t) ≤ 20 ∧
  _extract_chemical_formulas db [] = [] ∧
  (ascii_compatible db →
   ∀ tok, tok = str "C6H6" ∨ tok = str "NaCl" →
     whole_token db tok t →
     tok ∈ formula_candidates db t ∧
     (length (formula_candidates db t) ≤ 20 → tok ∈ _extract_chemical_formulas db t)).
Proof.
  split_and!.
  - reflexivity.
  - apply extract_NoDup.
  - apply extract_length.
  - apply extract_empty.
  - intros Hdb tok Htok Hwhole.
    pose proof (token_is_candidate db Hdb tok t Htok Hwhole) as Hin.
    split; [exact Hin|]. intros Hlen.
    unfold _extract_chemical_formulas. by rewrite take_ge.
Qed.

Lemma formula_extraction_witness :
  whole_token ascii_db (str "C6H6") (str "Benzene C6H6, salt NaCl.") ∧
  str "C6H6" ∈ _extract_chemical_formulas ascii_db (str "Benzene C6H6, salt NaCl.").
Proof.
  assert (whole_token ascii_db (str "C6H6") (str "Benzene C6H6, salt NaCl.")) as Hwhole.
  { exists (str "Benzene "), (str ", salt NaCl."). split_and!; by vm_compute. }
  split; [exact Hwhole|].
  refine (proj2 (proj2 (proj2 (proj2 (proj2
            (formula_extraction_properties ascii_db (str "Benzene C6H6, salt NaCl.")))))
            ascii_db_compatible (str "C6H6") (or_introl eq_refl) Hwhole) _).
  vm_compute. lia.
Defined.

(** C4 as stated fails.  The first text holds C6H6 and NaCl as substrings,
    each glued to the letters before it, and nothing is extracted from it.
    The second holds both as whole tokens after twenty other formulas, and
    the twenty entries returned hold neither of them, nor a part of them,
    nor a string around them. *)
Lemma formula_substrings_not_extracted :
  contains (str "C6H6") (str "abcC6H6 abcNaCl") = true ∧
  contains (str "NaCl") (str "abcC6H6 abcNaCl") = true ∧
  _extract_chemical_formulas ascii_db (str "abcC6H6 abcNaCl") = [] ∧
  contains (str "C6H6")
    (str "O1 O2 O3 O4 O5 O6 O7 O8 O9 O10 O11 O12 O13 O14 O15 O16 O17 O18 O19 O20 C6H6 NaCl")
    = true ∧
  contains (str "NaCl")
    (str "O1 O2 O3 O4 O5 O6 O7 O8 O9 O10 O11 O12 O13 O14 O15 O16 O17 O18 O19 O20 C6H6 NaCl")
    = true ∧
  appears (str "C6H6") (_extract_chemical_formulas ascii_db
    (str "O1 O2 O3 O4 O5 O6 O7 O8 O9 O10 O11 O12 O13 O14 O15 O16 O17 O18 O19 O20 C6H6 NaCl"))
    = false ∧
  appears (str "NaCl") (_extract_chemical_formulas ascii_db
    (str "O1 O2 O3 O4 O5 O6 O7 O8 O9 O10 O11 O12 O13 O14 O15 O16 O17 O18 O19 O20 C6H6 NaCl"))
    = false.
Proof. split_and!; by vm_compute. Qed.

End AnalyzerProps.

(** * Properties of the routes *)

Module RoutesProps.
Import Py Analyzer Routes.

(** ** The query handlers *)

Lemma is_str_true (v : value) (s : string) : is_str v s = true ↔ v = VStr s.
Proof.
  destruct v; simpl; try (split; [done|by intros [=]]).
  rewrite bool_decide_eq_true. split; [by intros ->|by intros [= ->]].
Qed.

Lemma is_str_false (v : value) (s : string) : is_str v s = false ↔ v ≠ VStr s.
Proof.
  rewrite <- is_str_true. destruct (is_str v s); split; congruence.
Qed.

(** C8.  For a task id that is not in the registry, [/analyze], [/status] and
    [/report] each answer 404 with the same error, whatever else the
    registry holds. *)
Theorem unknown_task_is_404 (tasks : registry) (now task_id : string) :
  tasks !! task_id = None →
  get_analysis_result tasks task_id = (Dict [("error", VStr "找不到指定的分析任務")], 404%Z) ∧
  get_analysis_status tasks task_id = (Dict [("error", VStr "找不到指定的分析任務")], 404%Z) ∧
  generate_report tasks now task_id = (Dict [("error", VStr "找不到指定的分析任務")], 404%Z).
Proof.
  intros Hnone. unfold get_analysis_result, get_analysis_status, generate_report.
  by rewrite Hnone.
Qed.

(** A registry with one task that is being processed. *)
Definition demo_registry : registry :=
  {[ "7f3c" := <["status" := VStr "processing"]>
               (<["progress" := VInt 10]>
               (<["message" := VStr "開始分析PDF檔案..."]> ∅)) ]}.

Lemma unknown_task_is_404_witness :
  demo_registry !! "0000" = None ∧
  get_analysis_status demo_registry "0000" =
    (Dict [("error", VStr "找不到指定的分析任務")], 404%Z).
Proof.
  assert (demo_registry !! "0000" = None) as Hnone by reflexivity.
  split; [exact Hnone|].
  exact (proj1 (proj2 (unknown_task_is_404 demo_registry "2026-01-01 00:00:00" "0000" Hnone))).
Defined.

(** C9.  For a registered task whose status is anything but ['completed'],
    [/report] answers 400 with an error and no report; and whenever
    [/report] answers 200, or answers with a report, the task is registered
    with status ['completed']. *)
Theorem report_only_when_completed (tasks : registry) (now task_id : string)
    (task : entry) (status : value) :
  tasks !! task_id = Some task →
  task !! "status" = Some status →
  (status ≠ VStr "completed" →
     generate_report tasks now task_id =
       (Dict [("error", VStr "分析尚未完成，無法生成報告")], 400%Z)) ∧
  ((generate_report tasks now task_id).2 = 200%Z → status = VStr "completed") ∧
  (∀ r, (generate_report tasks now task_id).1 = Report r → status = VStr "completed").
Proof.
  intros Htask Hstatus. unfold generate_report, getitem.
  rewrite Htask, Hstatus. simpl.
  destruct (is_str status "completed") eqn:Hs; simpl.
  - apply is_str_true in Hs. split_and!; done.
  - apply is_str_false in Hs. split_and!; done.
Qed.

Lemma report_only_when_completed_witness :
  demo_registry !! "7f3c" ≫= (.!! "status") = Some (VStr "processing") ∧
  generate_report demo_registry "2026-01-01 00:00:00" "7f3c" =
    (Dict [("error", VStr "分析尚未完成，無法生成報告")], 400%Z).
Proof.
  split; [reflexivity|].
  refine (proj1 (report_only_when_completed demo_registry "2026-01-01 00:00:00" "7f3c"
                   (<["status" := VStr "processing"]>
                     (<["progress" := VInt 10]>
                     (<["message" := VStr "開始分析PDF檔案..."]> ∅)))
                   (VStr "processing") _ _) _);
    [reflexivity|reflexivity|discriminate].
Defined.

(** ** The upload handler *)

Lemma bind_inr {A B} (c : M A) (f : A → M B) (σ σ' : world) (x : A) :
  c σ = (inr x, σ') → (c ≫= f) σ = f x σ'.
Proof. intros H. unfold mbind, M_bind. by rewrite H. Qed.

(** Saving a file into a directory just made and taking both away again
    leaves the file system as it was. *)
Lemma scratch_round_trip (fs : filesystem) (d name : string) (size : Z) :
  fs !! d = None →
  delete d (<[d := delete name (<[name := size]> (∅ : gmap string Z))]>
             (<[d := <[name := size]> ∅]> (<[d := ∅]> fs))) = fs.
Proof.
  intros Hd. rewrite delete_insert_eq, delete_insert_eq, delete_insert_eq.
  by apply delete_id.
Qed.

(** C7.  When the uploaded file has an allowed name and its saved size is
    above [MAX_FILE_SIZE] (50 * 1024 * 1024 bytes), the upload handler
    answers 400 with the error text that names the 50MB limit, and leaves
    the world as it found it: the scratch file and its directory are gone
    again, the registry has no new entry, no thread was started and no
    status was written. *)
Theorem oversized_upload_rejected (request_files : gmap string FileStorage)
    (env : upload_env) (σ : world) (file : FileStorage) :
  request_files !! "file" = Some file →
  filename file ≠ "" →
  allowed_file (filename file) = true →
  files σ !! env_temp_dir env = None →
  env_save env = inr () →
  (MAX_FILE_SIZE < content_length file)%Z →
  upload_patent request_files env σ =
    ((Dict [("error", VStr "檔案大小超過限制 (50MB)")], 400%Z), σ) ∧
  String.substring 26 4 "檔案大小超過限制 (50MB)" = "50MB".
Proof.
  intros Hfile Hname Hallowed Hfresh Hsave Hsize. split; [|reflexivity].
  unfold upload_patent, upload_body. rewrite Hfile.
  rewrite bool_decide_eq_false_2 by done.
  unfold file_truthy. rewrite bool_decide_eq_false_2 by done. rewrite Hallowed. simpl.
  destruct σ as [tasks fs ths log]. simpl in Hfresh.
  erewrite bind_inr; [|unfold mkdtemp; simpl; by rewrite Hfresh].
  erewrite bind_inr; [|unfold save; simpl; by rewrite Hsave, lookup_insert_eq].
  erewrite bind_inr;
    [|unfold getsize; simpl; by rewrite lookup_insert_eq; simpl; rewrite lookup_insert_eq].
  apply Z.ltb_lt in Hsize. rewrite Hsize.
  erewrite bind_inr;
    [|unfold os_remove; simpl; by rewrite lookup_insert_eq, lookup_insert_eq].
  erewrite bind_inr;
    [|unfold os_rmdir; simpl; rewrite lookup_insert_eq;
      by rewrite bool_decide_eq_true_2 by (by apply delete_insert_id)].
  unfold mret, M_ret, with_files. simpl.
  by rewrite scratch_round_trip.
Qed.

Definition demo_env : upload_env :=
  {| env_task_id := "7f3c"; env_file_uuid := "a91e"; env_temp_dir := "/tmp/tmpq2";
     env_save := inr (); env_time := 1700000000; env_thread_start := inr ();
     env_analysis := inl "cannot open broken document" |}.

Definition demo_upload (size : Z) : gmap string FileStorage :=
  {[ "file" := {| filename := "patent.pdf"; content_length := size |} ]}.

Lemma oversized_upload_rejected_witness :
  (MAX_FILE_SIZE < 51 * 1024 * 1024)%Z ∧
  upload_patent (demo_upload (51 * 1024 * 1024)) demo_env (initial ∅) =
    ((Dict [("error", VStr "檔案大小超過限制 (50MB)")], 400%Z), initial ∅).
Proof.
  split; [reflexivity|].
  refine (proj1 (oversized_upload_rejected (demo_upload (51 * 1024 * 1024)) demo_env
                   (initial ∅) {| filename := "patent.pdf";
                                  content_length := 51 * 1024 * 1024 |} _ _ _ _ _ _));
    [reflexivity|discriminate|reflexivity|reflexivity|reflexivity|reflexivity].
Defined.

(** ** The worker, one statement at a time *)

(** The lines of [run_analysis] that assign to a key of the task entry: the
    key, the value and the next line. *)
Definition write_at (p : pc) : option (string * value * pc) :=
  match p with
  | L28 => Some ("status", VStr "processing", L29)
  | L29 => Some ("progress", VInt 10, L30)
  | L30 => Some ("message", VStr "開始分析PDF檔案...", L33)
  | L36 r => Some ("progress", VInt 90, L37 r)
  | L37 r => Some ("message", VStr "生成分析報告...", L40 r)
  | L40 r => Some ("status", VStr "completed", L41 r)
  | L41 r => Some ("progress", VInt 100, L42 r)
  | L42 r => Some ("message", VStr "分析完成", L43 r)
  | L43 r => Some ("result", VResult r, L47)
  | L53 e => Some ("status", VStr "failed", L54 e)
  | L54 e => Some ("message", VStr ("分析失敗: " +:+ e), L55 e)
  | L55 e => Some ("error", VStr e, Done)
  | L33 | L47 | L48 | Done | Crashed _ => None
  end.

(** A bound on the statements still to come from a line: a statement of the
    [try] body may raise and be followed by the three of the handler. *)
Definition steps_left (p : pc) : nat :=
  match p with
  | L28 => 13 | L29 => 12 | L30 => 11 | L33 => 10
  | L36 _ => 9 | L37 _ => 8 | L40 _ => 7 | L41 _ => 6 | L42 _ => 5 | L43 _ => 4
  | L47 => 2 | L48 => 1
  | L53 _ => 3 | L54 _ => 2 | L55 _ => 1
  | Done | Crashed _ => 0
  end.

Lemma step_write (w : worker) (σ : world) (task : entry) k v p' :
  analysis_tasks σ !! w_task_id w = Some task →
  write_at (w_pc w) = Some (k, v, p') →
  run_analysis_step w σ =
    (p', log_status (w_task_id w) k v
           (with_tasks <[w_task_id w := <[k := v]> task]> σ)).
Proof.
  intros Htask Hw. unfold run_analysis_step, exec_at.
  destruct (w_pc w); simplify_eq/=;
    (erewrite bind_inr; [reflexivity|unfold setitem; by rewrite Htask]).
Qed.

(** The other lines leave the registry, the threads and the log alone. *)
Lemma step_no_write (w : worker) (σ : world) :
  write_at (w_pc w) = None →
  ∃ fs, (run_analysis_step w σ).2 = with_files (λ _, fs) σ ∧
    match w_pc w with
    | L33 =>
        match w_analysis w with
        | inr r => (run_analysis_step w σ).1 = L36 r
        | inl e => (run_analysis_step w σ).1 = L53 e
        end
    | L47 => (run_analysis_step w σ).1 = L48 ∨ (run_analysis_step w σ).1 = Done
    | L48 => (run_analysis_step w σ).1 = Done
    | p => (run_analysis_step w σ).1 = p
    end.
Proof.
  intros Hw. unfold run_analysis_step, exec_at. destruct σ as [tasks fs ths log].
  destruct (w_pc w); simplify_eq/=.
  - exists fs. unfold mbind, M_bind, lift. by destruct (w_analysis w).
  - unfold mbind, M_bind, os_remove. simpl.
    destruct (fs !! w_temp_dir w) as [dir|]; [|by exists fs; split; [|right]].
    destruct (dir !! w_file_name w); [|by exists fs; split; [|right]].
    eexists. split; [reflexivity|by left].
  - unfold mbind, M_bind, os_rmdir. simpl.
    destruct (fs !! w_temp_dir w) as [dir|]; [|by exists fs].
    destruct (bool_decide _); [|by exists fs]. eexists. by split.
  - by exists fs.
  - by exists fs.
Qed.

(** Every statement brings the worker closer to the end, in any world. *)
Lemma step_decreases (w : worker) (σ : world) :
  finished (w_pc w) = false →
  steps_left (run_analysis_step w σ).1 < steps_left (w_pc w).
Proof.
  intros Hfin. unfold run_analysis_step, exec_at.
  destruct (w_pc w) eqn:Hpc; try done; simpl;
    try (unfold mbind, M_bind, setitem;
         destruct (analysis_tasks σ !! w_task_id w); simpl; lia).
  - unfold mbind, M_bind, lift. destruct (w_analysis w); simpl; lia.
  - unfold mbind, M_bind, os_remove.
    destruct (files σ !! w_temp_dir w) as [dir|]; simpl; [|lia].
    destruct (dir !! w_file_name w); simpl; lia.
  - unfold mbind, M_bind, os_rmdir.
    destruct (files σ !! w_temp_dir w) as [dir|]; simpl; [|lia].
    destruct (bool_decide _); simpl; lia.
Qed.

(** ** What holds in every world the server can reach *)

(** The status values written so far, as the current status tells them. *)
Definition history_of (status : string) : list value :=
  if bool_decide (status = "pending") then [VStr "pending"]
  else if bool_decide (status = "processing") then [VStr "pending"; VStr "processing"]
  else [VStr "pending"; VStr "processing"; VStr status].

(** What the entry of a task holds while its worker stands at a line. *)
Definition line_ok (w : worker) (task : entry) : Prop :=
  let an := w_analysis w in
  let status s := task !! "status" = Some (VStr s) in
  let result := task !! "result" in
  let error := task !! "error" in
  match w_pc w with
  | L28 => status "pending" ∧ result = None ∧ error = None
  | L29 | L30 | L33 => status "processing" ∧ result = None ∧ error = None
  | L36 r | L37 r | L40 r =>
      an = inr r ∧ status "processing" ∧ result = None ∧ error = None
  | L41 r | L42 r | L43 r =>
      an = inr r ∧ status "completed" ∧ result = None ∧ error = None
  | L47 | L48 =>
      (∃ r, an = inr r ∧ result = Some (VResult r)) ∧ status "completed" ∧ error = None
  | L53 e => an = inl e ∧ status "processing" ∧ result = None ∧ error = None
  | L54 e | L55 e => an = inl e ∧ status "failed" ∧ result = None ∧ error = None
  | Done =>
      (∃ r, an = inr r ∧ result = Some (VResult r) ∧ status "completed" ∧ error = None) ∨
      (∃ e, an = inl e ∧ result = None ∧ status "failed" ∧ error = Some (VStr e))
  | Crashed _ => False
  end.

Definition worker_ok (σ : world) (w : worker) : Prop :=
  ∃ task status,
    analysis_tasks σ !! w_task_id w = Some task ∧
    task !! "status" = Some (VStr status) ∧
    line_ok w task ∧
    status_writes (w_task_id w) σ = history_of status.

(** An entry whose thread could not be started stays as the upload made it. *)
Definition orphan_ok (σ : world) (task_id : string) (task : entry) : Prop :=
  task !! "status" = Some (VStr "pending") ∧
  task !! "result" = None ∧
  status_writes task_id σ = [VStr "pending"].

Record Inv (σ : world) : Prop := {
  inv_nodup : NoDup (w_task_id <$> threads σ);
  inv_workers : ∀ i w, threads σ !! i = Some w → worker_ok σ w;
  inv_absent : ∀ task_id,
    analysis_tasks σ !! task_id = None → status_writes task_id σ = [];
  inv_orphan : ∀ task_id task,
    analysis_tasks σ !! task_id = Some task →
    task_id ∉ (w_task_id <$> threads σ) →
    orphan_ok σ task_id task
}.

Lemma status_writes_app (task_id : string) (σ σ' : world) (l : list (string * value)) :
  status_log σ' = status_log σ ++ l →
  status_writes task_id σ' =
    status_writes task_id σ ++ (filter (λ p, p.1 = task_id) l).*2.
Proof.
  intros H. unfold status_writes. by rewrite H, filter_app, fmap_app.
Qed.

Lemma status_writes_same (task_id : string) (σ σ' : world) :
  status_log σ' = status_log σ → status_writes task_id σ' = status_writes task_id σ.
Proof. intros H. unfold status_writes. by rewrite H. Qed.

Lemma status_writes_log_status (task_id tid k : string) (v : value) (σ : world) :
  status_writes task_id (log_status tid k v σ) =
    status_writes task_id σ ++
      (if bool_decide (k = "status") then
         if bool_decide (tid = task_id) then [v] else []
       else []).
Proof.
  unfold log_status. case_bool_decide; [|by rewrite app_nil_r].
  erewrite status_writes_app; [|reflexivity]. f_equal.
  rewrite filter_cons, filter_nil. simpl. by repeat case_decide; case_bool_decide.
Qed.

Lemma status_writes_with_threads (task_id : string) f (σ : world) :
  status_writes task_id (with_threads f σ) = status_writes task_id σ.
Proof. reflexivity. Qed.

Lemma fmap_task_id_insert (l : list worker) (i : nat) (w : worker) (p : pc) :
  l !! i = Some w → w_task_id <$> <[i := at_pc w p]> l = w_task_id <$> l.
Proof.
  intros Hi. rewrite list_fmap_insert. simpl. apply list_insert_id.
  by rewrite list_lookup_fmap, Hi.
Qed.

(** A line that assigns to a key of the entry keeps the entry as the next
    line expects it, and extends the history when the key is ['status']. *)
Lemma line_write (w : worker) (task : entry) (status : string) k v p' :
  line_ok w task →
  task !! "status" = Some (VStr status) →
  write_at (w_pc w) = Some (k, v, p') →
  ∃ status',
    (<[k := v]> task) !! "status" = Some (VStr status') ∧
    line_ok (at_pc w p') (<[k := v]> task) ∧
    history_of status ++ (if bool_decide (k = "status") then [v] else []) =
      history_of status'.
Proof.
  destruct w as [tid d f an p]. unfold line_ok. simpl. intros Hl Hs Hw.
  destruct p; simplify_eq/=; destruct_and?; simplify_eq.
  all: try (eexists; split_and!; simplify_map_eq; try done; fail).
  - exists "completed". split_and!; simplify_map_eq; try done. by exists result.
  - exists "failed". split_and!; simplify_map_eq; try done. right. by exists e.
Qed.

(** A line that assigns to no key moves on to a line that expects the same
    entry. *)
Lemma line_no_write (w : worker) (task : entry) (σ : world) :
  line_ok w task →
  write_at (w_pc w) = None →
  line_ok (at_pc w (run_analysis_step w σ).1) task.
Proof.
  intros Hl Hw. destruct (step_no_write w σ Hw) as (fs & _ & Hnext).
  set (p' := (run_analysis_step w σ).1) in *. clearbody p'.
  destruct w as [tid d f an p]. unfold line_ok in *. simpl in *.
  destruct p; simplify_eq/=.
  - destruct an as [e|r]; subst p'; simpl; (split; [done|exact Hl]).
  - destruct Hl as ((r & -> & Hr) & Hst & Herr).
    destruct Hnext as [->| ->]; simpl; [split_and!; eauto|].
    left. exists r. by split_and!.
  - destruct Hl as ((r & -> & Hr) & Hst & Herr).
    left. exists r. by split_and!.
  - done.
  - done.
Qed.

Lemma worker_has_task (σ : world) (w : worker) :
  Inv σ → w ∈ threads σ → is_Some (analysis_tasks σ !! w_task_id w).
Proof.
  intros HI (i & Hi)%list_elem_of_lookup.
  destruct (inv_workers σ HI i w Hi) as (task & status & Htask & _). by exists task.
Qed.

Lemma task_id_in_threads (σ : world) (i : nat) (w : worker) :
  threads σ !! i = Some w → w_task_id w ∈ w_task_id <$> threads σ.
Proof.
  intros Hi. apply list_elem_of_fmap. exists w. split; [done|].
  apply list_elem_of_lookup. by exists i.
Qed.

Lemma log_status_tasks (tid k : string) (v : value) (σ : world) :
  analysis_tasks (log_status tid k v σ) = analysis_tasks σ.
Proof. unfold log_status. by case_bool_decide. Qed.

Lemma log_status_threads (tid k : string) (v : value) (σ : world) :
  threads (log_status tid k v σ) = threads σ.
Proof. unfold log_status. by case_bool_decide. Qed.

(** Two threads have different task ids. *)
Lemma other_thread_other_task (σ : world) (i j : nat) (w w' : worker) :
  Inv σ → threads σ !! i = Some w → threads σ !! j = Some w' → i ≠ j →
  w_task_id w ≠ w_task_id w'.
Proof.
  intros HI Hi Hj Hne Heq. apply Hne.
  eapply (NoDup_lookup _ i j (w_task_id w) (inv_nodup σ HI)).
  - by rewrite list_lookup_fmap, Hi.
  - by rewrite list_lookup_fmap, Hj, Heq.
Qed.

(** A statement of one thread keeps the invariant. *)
Lemma inv_thread_step (i : nat) (σ : world) : Inv σ → Inv (thread_step i σ).
Proof.
  intros HI. unfold thread_step. destruct (threads σ !! i) as [w|] eqn:Hi; [|done].
  destruct (inv_workers σ HI i w Hi) as (task & status & Htask & Hst & Hline & Hlog).
  destruct (write_at (w_pc w)) as [[[k v] p']|] eqn:Hw.
  - rewrite (step_write w σ task k v p' Htask Hw).
    destruct (line_write w task status k v p' Hline Hst Hw) as (status' & Hst' & Hline' & Hhist).
    set (σ1 := log_status _ _ _ _).
    assert (analysis_tasks σ1 = <[w_task_id w := <[k := v]> task]> (analysis_tasks σ)) as Htasks1
      by (unfold σ1; by rewrite log_status_tasks).
    assert (threads σ1 = threads σ) as Hthreads1
      by (unfold σ1; by rewrite log_status_threads).
    assert (∀ t, status_writes t σ1 = status_writes t σ ++
              if bool_decide (k = "status") then
                if bool_decide (w_task_id w = t) then [v] else []
              else []) as Hwrites1.
    { intros t. unfold σ1. rewrite status_writes_log_status. f_equal. }
    clearbody σ1.
    split; simpl; rewrite ?Hthreads1, ?Htasks1.
    + rewrite fmap_task_id_insert by done. apply (inv_nodup σ HI).
    + intros j w' Hj. destruct (decide (i = j)) as [<-|Hne].
      * rewrite list_lookup_insert_eq in Hj by (by eapply lookup_lt_Some).
        injection Hj as <-. exists (<[k := v]> task), status'. simpl.
        rewrite Htasks1, lookup_insert_eq. split_and!; try done.
        rewrite status_writes_with_threads.
        rewrite Hwrites1, Hlog, <- Hhist. f_equal.
        case_bool_decide; [|done]. by rewrite bool_decide_eq_true_2.
      * rewrite list_lookup_insert_ne in Hj by done.
        pose proof (other_thread_other_task σ i j w w' HI Hi Hj Hne) as Htid.
        destruct (inv_workers σ HI j w' Hj) as (task' & st' & Htask' & Hst'' & Hline'' & Hlog').
        exists task', st'. simpl. rewrite Htasks1, lookup_insert_ne by done.
        split_and!; try done.
        rewrite status_writes_with_threads.
        rewrite Hwrites1, Hlog'. case_bool_decide; [|by rewrite app_nil_r].
        rewrite bool_decide_eq_false_2 by done. by rewrite app_nil_r.
    + intros t. destruct (decide (w_task_id w = t)) as [<-|Hne].
      * by rewrite lookup_insert_eq.
      * rewrite lookup_insert_ne by done. intros Hnone.
        rewrite status_writes_with_threads.
        rewrite Hwrites1, (inv_absent σ HI t Hnone).
        case_bool_decide; [|done]. by rewrite bool_decide_eq_false_2.
    + intros t task0. rewrite fmap_task_id_insert by done.
      destruct (decide (w_task_id w = t)) as [<-|Hne].
      * intros _ Hnotin. destruct Hnotin. by eapply task_id_in_threads.
      * rewrite lookup_insert_ne by done. intros Ht Hnotin.
        destruct (inv_orphan σ HI t task0 Ht Hnotin) as (? & ? & Hl).
        split_and!; try done.
        rewrite status_writes_with_threads.
        rewrite Hwrites1, Hl. case_bool_decide; [|done].
        by rewrite bool_decide_eq_false_2.
  - pose proof (line_no_write w task σ Hline Hw) as Hline'.
    destruct (step_no_write w σ Hw) as (fs & Hσ & _).
    destruct (run_analysis_step w σ) as [p' σ1]. simpl in *. subst σ1.
    split; simpl.
    + rewrite fmap_task_id_insert by done. apply (inv_nodup σ HI).
    + intros j w' Hj. destruct (decide (i = j)) as [<-|Hne].
      * rewrite list_lookup_insert_eq in Hj by (by eapply lookup_lt_Some).
        injection Hj as <-. by exists task, status.
      * rewrite list_lookup_insert_ne in Hj by done.
        apply (inv_workers σ HI j w' Hj).
    + apply (inv_absent σ HI).
    + intros t task0. rewrite fmap_task_id_insert by done. apply (inv_orphan σ HI).
Qed.

(** The thread that an accepted upload starts. *)
Definition new_worker (env : upload_env) : worker :=
  {| w_task_id := env_task_id env; w_temp_dir := env_temp_dir env;
     w_file_name := env_file_uuid env +:+ ".pdf"; w_analysis := env_analysis env;
     w_pc := L28 |}.

(** What a call of [upload_patent] does to the registry, the threads and the
    log: nothing, and the answer is not 200; or it makes the pending entry
    and the thread does not start, and the answer is 500; or it makes the
    entry and starts the thread, and the answer is 200. *)
Lemma upload_effect (request_files : gmap string FileStorage) (env : upload_env)
    (σ : world) :
  let r := (upload_patent request_files env σ).1 in
  let σ' := (upload_patent request_files env σ).2 in
  (analysis_tasks σ' = analysis_tasks σ ∧ threads σ' = threads σ ∧
   status_log σ' = status_log σ ∧ r.2 ≠ 200%Z) ∨
  (∃ file,
     analysis_tasks σ' =
       <[env_task_id env := pending_task file (env_time env)]> (analysis_tasks σ) ∧
     status_log σ' = status_log σ ++ [(env_task_id env, VStr "pending")] ∧
     ((threads σ' = threads σ ∧ r.2 = 500%Z) ∨
      (threads σ' = threads σ ++ [new_worker env] ∧ r.2 = 200%Z))).
Proof.
  destruct σ as [tasks fs ths log].
  unfold upload_patent, upload_body.
  destruct (request_files !! "file") as [file|]; [|by left].
  case_bool_decide; [by left|].
  destruct (_ && _); [|by left].
  unfold mbind, M_bind, mkdtemp, save, getsize, os_remove, os_rmdir, settask, thread_start,
    mret, M_ret. simpl.
  repeat (case_match; simplify_eq/=); try (by left).
  all: right; exists file; split_and!; try done.
  all: try (by left). all: try (by right).
Qed.

Lemma pending_task_lookup (file : FileStorage) (now : Z) :
  pending_task file now !! "status" = Some (VStr "pending") ∧
  pending_task file now !! "result" = None ∧
  pending_task file now !! "error" = None.
Proof. by split_and!. Qed.

(** An upload keeps the invariant when its task id is new. *)
Lemma inv_upload (request_files : gmap string FileStorage) (env : upload_env) (σ : world) :
  analysis_tasks σ !! env_task_id env = None →
  Inv σ → Inv (upload_patent request_files env σ).2.
Proof.
  intros Hfresh HI.
  destruct (upload_effect request_files env σ)
    as [(Htasks & Hthreads & Hlog & _)|(file & Htasks & Hlog & Hthreads)].
  { split; rewrite ?Htasks, ?Hthreads.
    - apply (inv_nodup σ HI).
    - intros i w Hi. destruct (inv_workers σ HI i w Hi) as (task & st & ? & ? & ? & ?).
      exists task, st. rewrite Htasks, (status_writes_same _ σ) by done. by split_and!.
    - intros t Ht. rewrite (status_writes_same _ σ) by done. by apply (inv_absent σ HI).
    - intros t task Ht Hnotin. destruct (inv_orphan σ HI t task Ht Hnotin) as (? & ? & ?).
      split_and!; try done. by rewrite (status_writes_same _ σ). }
  set (σ' := (upload_patent request_files env σ).2) in *. clearbody σ'.
  destruct (pending_task_lookup file (env_time env)) as (Hpst & Hpres & Hperr).
  assert (∀ t, status_writes t σ' = status_writes t σ ++
            if bool_decide (env_task_id env = t) then [VStr "pending"] else []) as Hwrites.
  { intros t. erewrite status_writes_app; [|exact Hlog]. f_equal.
    rewrite filter_cons, filter_nil. simpl. by case_decide; case_bool_decide. }
  assert (env_task_id env ∉ w_task_id <$> threads σ) as Hnew.
  { intros (w & Hw & Hin)%list_elem_of_fmap.
    destruct (worker_has_task σ w HI Hin) as [task Htask]. congruence. }
  assert (∀ i w, threads σ !! i = Some w → worker_ok σ' w) as Hold.
  { intros i w Hi. destruct (inv_workers σ HI i w Hi) as (task & st & Ht & ? & ? & Hl).
    assert (env_task_id env ≠ w_task_id w) as Hne by (intros Heq; congruence).
    exists task, st. rewrite Htasks, lookup_insert_ne by done. split_and!; try done.
    rewrite Hwrites, Hl, bool_decide_eq_false_2 by done. by rewrite app_nil_r. }
  assert (status_writes (env_task_id env) σ' = [VStr "pending"]) as Hmine.
  { rewrite Hwrites, (inv_absent σ HI _ Hfresh), bool_decide_eq_true_2; done. }
  split; rewrite ?Htasks.
  - destruct Hthreads as [[-> _]|[-> _]]; [apply (inv_nodup σ HI)|].
    rewrite fmap_app. apply NoDup_app. split_and!; [apply (inv_nodup σ HI)| |].
    + intros t Ht Hin. simpl in Hin. apply list_elem_of_singleton in Hin. by subst t.
    + simpl. apply NoDup_singleton.
  - intros i w. destruct Hthreads as [[-> _]|[-> _]]; [apply Hold|].
    intros [Hi|[_ Hi]]%lookup_app_Some; [by eapply Hold|].
    apply list_lookup_singleton_Some in Hi as [_ <-].
    exists (pending_task file (env_time env)), "pending". simpl.
    rewrite Htasks, lookup_insert_eq. by split_and!.
  - intros t. destruct (decide (env_task_id env = t)) as [<-|Hne].
    + by rewrite lookup_insert_eq.
    + rewrite lookup_insert_ne by done. intros Hnone.
      rewrite Hwrites, (inv_absent σ HI t Hnone), bool_decide_eq_false_2; done.
  - intros t task. destruct (decide (env_task_id env = t)) as [<-|Hne].
    + rewrite lookup_insert_eq. intros [= <-] _. by split_and!.
    + rewrite lookup_insert_ne by done. intros Ht Hnotin.
      assert (t ∉ w_task_id <$> threads σ) as Hnotin'.
      { destruct Hthreads as [[Heq _]|[Heq _]]; rewrite Heq in Hnotin; [done|].
        rewrite fmap_app in Hnotin. intros Hin. apply Hnotin, elem_of_app. by left. }
      destruct (inv_orphan σ HI t task Ht Hnotin') as (? & ? & Hl).
      split_and!; try done.
      rewrite Hwrites, Hl, bool_decide_eq_false_2; done.
Qed.

Lemma inv_initial (fs : filesystem) : Inv (initial fs).
Proof.
  split; simpl.
  - apply NoDup_nil_2.
  - intros i w Hi. by rewrite lookup_nil in Hi.
  - done.
  - intros t task Ht. by rewrite lookup_empty in Ht.
Qed.

Lemma reachable_inv (σ : world) : reachable σ → Inv σ.
Proof.
  induction 1 as [fs|σ σ' _ IH Hstep]; [apply inv_initial|].
  destruct Hstep as [request_files env σ Hfresh|i σ Hi].
  - by apply inv_upload.
  - by apply inv_thread_step.
Qed.

(** An upload that is answered with 200 has made the pending entry and
    started the thread of the task. *)
Lemma accepted_upload_starts_worker (request_files : gmap string FileStorage)
    (env : upload_env) (σ : world) :
  (upload_patent request_files env σ).1.2 = 200%Z →
  threads (upload_patent request_files env σ).2 = threads σ ++ [new_worker env] ∧
  status_log (upload_patent request_files env σ).2 =
    status_log σ ++ [(env_task_id env, VStr "pending")].
Proof.
  intros H200.
  destruct (upload_effect request_files env σ)
    as [(_ & _ & _ & Hne)|(file & _ & Hlog & [[_ H500]|[Hthreads _]])]; try done.
  rewrite H200 in H500. discriminate.
Qed.

(** ** The claims about the task life cycle *)

(** C1.  In every world the server can reach, for every thread started by an
    accepted upload, the status values written so far to the entry of its
    task are an initial part of pending, processing, completed or of
    pending, processing, failed, in this order and with nothing repeated;
    once the worker has run to its end they are exactly one of these two
    sequences.  The worker never dies of an exception, and each of its
    statements brings it closer to the end, so it does run to its end. *)
Theorem status_sequence (σ : world) (i : nat) (w : worker) :
  reachable σ →
  threads σ !! i = Some w →
  let writes := status_writes (w_task_id w) σ in
  (writes = [VStr "pending"] ∨
   writes = [VStr "pending"; VStr "processing"] ∨
   writes = [VStr "pending"; VStr "processing"; VStr "completed"] ∨
   writes = [VStr "pending"; VStr "processing"; VStr "failed"]) ∧
  (w_pc w = Done →
   writes = [VStr "pending"; VStr "processing"; VStr "completed"] ∨
   writes = [VStr "pending"; VStr "processing"; VStr "failed"]) ∧
  (∀ e, w_pc w ≠ Crashed e) ∧
  (∀ σ0, finished (w_pc w) = false →
         steps_left (run_analysis_step w σ0).1 < steps_left (w_pc w)).
Proof.
  intros Hreach Hi writes. apply reachable_inv in Hreach.
  destruct (inv_workers σ Hreach i w Hi) as (task & status & Htask & Hst & Hline & Hlog).
  fold writes in Hlog.
  assert (status = "pending" ∨ status = "processing" ∨ status = "completed" ∨ status = "failed")
    as Hstatus.
  { unfold line_ok in Hline. destruct (w_pc w); try done;
      repeat match goal with
             | H : _ ∧ _ |- _ => destruct H
             | H : _ ∨ _ |- _ => destruct H
             | H : ∃ _, _ |- _ => destruct H
             end; simplify_eq; eauto. }
  split_and!.
  - rewrite Hlog. destruct Hstatus as [->|[->|[->| ->]]]; eauto.
  - intros Hdone. rewrite Hlog. unfold line_ok in Hline. rewrite Hdone in Hline.
    destruct Hline as [(r & _ & _ & Hs & _)|(e & _ & _ & Hs & _)];
      simplify_eq; eauto.
  - intros e He. unfold line_ok in Hline. by rewrite He in Hline.
  - intros σ0. apply step_decreases.
Qed.

(** C3.  In every world the server can reach, a worker whose call of
    [analyze_patent_pdf] raises [e] never dies of an exception and moves
    closer to its end with each statement; once it has run to its end, the
    entry of its task has status ['failed'] and the text of [e] under
    ['error'], and [/analyze/<task_id>] answers 500 with that text. *)
Theorem failed_analysis_is_reported (σ : world) (i : nat) (w : worker) (e : exc) :
  reachable σ →
  threads σ !! i = Some w →
  w_analysis w = inl e →
  (∀ e', w_pc w ≠ Crashed e') ∧
  (∀ σ0, finished (w_pc w) = false →
         steps_left (run_analysis_step w σ0).1 < steps_left (w_pc w)) ∧
  (w_pc w = Done →
   ∃ task,
     analysis_tasks σ !! w_task_id w = Some task ∧
     task !! "status" = Some (VStr "failed") ∧
     task !! "error" = Some (VStr e) ∧
     get_analysis_result (analysis_tasks σ) (w_task_id w) =
       (Dict [("task_id", VStr (w_task_id w)); ("status", VStr "failed");
              ("error", VStr e)], 500%Z)).
Proof.
  intros Hreach Hi Han. apply reachable_inv in Hreach.
  destruct (inv_workers σ Hreach i w Hi) as (task & status & Htask & Hst & Hline & Hlog).
  split_and!.
  - intros e' He. unfold line_ok in Hline. by rewrite He in Hline.
  - intros σ0. apply step_decreases.
  - intros Hdone. unfold line_ok in Hline. rewrite Hdone, Han in Hline.
    destruct Hline as [(r & ? & _)|(e' & [= <-] & _ & Hs & Herr)]; [done|].
    exists task. split_and!; try done.
    unfold get_analysis_result, getitem, get. rewrite Htask, Hs, Herr. reflexivity.
Qed.

(** ** Runs of the worker *)

Lemma step_threads (w : worker) (σ : world) : threads (run_analysis_step w σ).2 = threads σ.
Proof.
  destruct (write_at (w_pc w)) as [[[k v] p']|] eqn:Hw.
  - destruct (analysis_tasks σ !! w_task_id w) as [task|] eqn:Htask.
    + rewrite (step_write w σ task k v p' Htask Hw). simpl. by rewrite log_status_threads.
    + unfold run_analysis_step, exec_at.
      destruct (w_pc w); simplify_eq/=; unfold mbind, M_bind, setitem; by rewrite Htask.
  - by destruct (step_no_write w σ Hw) as (fs & -> & _).
Qed.

Lemma thread_step_length (i : nat) (σ : world) :
  length (threads (thread_step i σ)) = length (threads σ).
Proof.
  unfold thread_step. destruct (threads σ !! i) as [w|]; [|done].
  pose proof (step_threads w σ) as H. destruct (run_analysis_step w σ) as [p σ'].
  simpl in *. by rewrite length_insert, H.
Qed.

Lemma thread_steps_reachable (n : nat) (σ : world) :
  reachable σ → 0 < length (threads σ) →
  reachable (Nat.iter n (thread_step 0) σ) ∧
  0 < length (threads (Nat.iter n (thread_step 0) σ)).
Proof.
  intros Hr Hlen. induction n as [|n [IHr IHl]]; simpl; [done|]. split.
  - eapply reach_step; [exact IHr|]. by apply step_thread.
  - by rewrite thread_step_length.
Qed.

Lemma step_analysis_raises (w : worker) (σ : world) (e : exc) :
  w_pc w = L33 → w_analysis w = inl e → run_analysis_step w σ = (L53 e, σ).
Proof.
  intros Hpc Han. unfold run_analysis_step, exec_at, mbind, M_bind, lift.
  by rewrite Hpc, Han.
Qed.

Ltac write_step :=
  cbn [run_analysis_from finished at_pc w_pc];
  erewrite step_write;
    [| cbn [at_pc w_task_id]; rewrite ?log_status_tasks; cbn [with_tasks analysis_tasks];
       first [eassumption | apply lookup_insert_eq]
     | reflexivity ];
  cbn [at_pc w_task_id].

(** The worker run on its own, from any world that has the entry of its
    task, when the analysis raises [e]: it ends at [Done] after seven
    statements, with status, message and error set. *)
Lemma run_analysis_failure (w : worker) (σ : world) (task : entry) (e : exc) :
  analysis_tasks σ !! w_task_id w = Some task →
  w_analysis w = inl e →
  ∃ σ', run_analysis w σ = (Done, σ') ∧
    analysis_tasks σ' !! w_task_id w =
      Some (<["error" := VStr e]>
           (<["message" := VStr ("分析失敗: " +:+ e)]>
           (<["status" := VStr "failed"]>
           (<["message" := VStr "開始分析PDF檔案..."]>
           (<["progress" := VInt 10]>
           (<["status" := VStr "processing"]> task)))))) ∧
    get_analysis_result (analysis_tasks σ') (w_task_id w) =
      (Dict [("task_id", VStr (w_task_id w)); ("status", VStr "failed");
             ("error", VStr e)], 500%Z).
Proof.
  intros Htask Han. unfold run_analysis.
  write_step. write_step. write_step.
  cbn [run_analysis_from finished].
  rewrite (step_analysis_raises _ _ e) by done.
  write_step. write_step. write_step.
  cbn [run_analysis_from finished].
  eexists. split; [reflexivity|].
  split.
  - rewrite log_status_tasks. cbn [with_tasks analysis_tasks]. apply lookup_insert_eq.
  - unfold get_analysis_result. rewrite log_status_tasks. cbn [with_tasks analysis_tasks].
    rewrite lookup_insert_eq. unfold getitem, get.
    rewrite lookup_insert_eq.
    rewrite (lookup_insert_ne _ "error" "status"), (lookup_insert_ne _ "message" "status") by done.
    rewrite lookup_insert_eq. reflexivity.
Qed.

(** ** Two runs of the server *)

(** An upload of a small file whose analysis will raise, and the world once
    its worker has executed seven statements. *)
Definition demo_started : world :=
  (upload_patent (demo_upload 1024) demo_env (initial ∅)).2.

Definition demo_failed : world := Nat.iter 7 (thread_step 0) demo_started.

Lemma demo_started_reachable : reachable demo_started.
Proof. eapply reach_step; [apply (reach_initial ∅)|]. by apply step_upload. Qed.

Lemma demo_failed_reachable : reachable demo_failed.
Proof.
  apply thread_steps_reachable; [apply demo_started_reachable|]. vm_compute. lia.
Qed.

(** An upload whose analysis will return a result, and the world once its
    worker has executed line 40 and not yet line 43. *)
Definition demo_result : AnalysisResult :=
  {| chemical_formulas := [str "C6H6"]; smiles_structures := [];
     patent_elements := ∅; analysis_summary := None;
     images_extracted := 0; pages_processed := 1 |}.

Definition demo_env_ok : upload_env :=
  {| env_task_id := "7f3c"; env_file_uuid := "a91e"; env_temp_dir := "/tmp/tmpq2";
     env_save := inr (); env_time := 1700000000; env_thread_start := inr ();
     env_analysis := inr demo_result |}.

Definition demo_completing : world :=
  Nat.iter 7 (thread_step 0) (upload_patent (demo_upload 1024) demo_env_ok (initial ∅)).2.

Lemma demo_completing_reachable : reachable demo_completing.
Proof.
  apply thread_steps_reachable; [|vm_compute; lia].
  eapply reach_step; [apply (reach_initial ∅)|]. by apply step_upload.
Qed.

Lemma status_sequence_witness :
  threads demo_failed !! 0 = Some (at_pc (new_worker demo_env) Done) ∧
  (status_writes "7f3c" demo_failed =
     [VStr "pending"; VStr "processing"; VStr "completed"] ∨
   status_writes "7f3c" demo_failed =
     [VStr "pending"; VStr "processing"; VStr "failed"]).
Proof.
  assert (threads demo_failed !! 0 = Some (at_pc (new_worker demo_env) Done)) as Hi
    by (vm_compute; reflexivity).
  split; [exact Hi|].
  exact (proj1 (proj2 (status_sequence demo_failed 0 _ demo_failed_reachable Hi)) eq_refl).
Defined.

Lemma failed_analysis_is_reported_witness :
  threads demo_failed !! 0 = Some (at_pc (new_worker demo_env) Done) ∧
  ∃ task,
    analysis_tasks demo_failed !! "7f3c" = Some task ∧
    task !! "status" = Some (VStr "failed") ∧
    task !! "error" = Some (VStr "cannot open broken document") ∧
    get_analysis_result (analysis_tasks demo_failed) "7f3c" =
      (Dict [("task_id", VStr "7f3c"); ("status", VStr "failed");
             ("error", VStr "cannot open broken document")], 500%Z).
Proof.
  assert (threads demo_failed !! 0 = Some (at_pc (new_worker demo_env) Done)) as Hi
    by (vm_compute; reflexivity).
  split; [exact Hi|].
  exact (proj2 (proj2 (failed_analysis_is_reported demo_failed 0 _
                         "cannot open broken document" demo_failed_reachable Hi eq_refl))
           eq_refl).
Defined.

(** ** The result and the status *)

(** An entry that has a ['result'] has status ['completed']. *)
Lemma result_implies_completed (σ : world) (task_id : string) (task : entry) :
  reachable σ →
  analysis_tasks σ !! task_id = Some task →
  is_Some (task !! "result") →
  task !! "status" = Some (VStr "completed").
Proof.
  intros HI%reachable_inv Htask [v Hres].
  destruct (decide (task_id ∈ w_task_id <$> threads σ)) as [Hin|Hnotin].
  - apply list_elem_of_fmap in Hin as (w & -> & (i & Hi)%list_elem_of_lookup).
    destruct (inv_workers σ HI i w Hi) as (task' & status & Htask' & _ & Hline & _).
    assert (task' = task) as -> by congruence.
    unfold line_ok in Hline. destruct (w_pc w); try done;
      repeat match goal with
             | H : _ ∧ _ |- _ => destruct H
             | H : _ ∨ _ |- _ => destruct H
             | H : ∃ _, _ |- _ => destruct H
             end; congruence.
  - destruct (inv_orphan σ HI task_id task Htask Hnotin) as (_ & Hnone & _). congruence.
Qed.

(** An entry with status ['completed'] lacks its ['result'] exactly while
    its worker stands between line 40 and line 43. *)
Lemma completed_without_result_window (σ : world) (i : nat) (w : worker) (task : entry) :
  reachable σ →
  threads σ !! i = Some w →
  analysis_tasks σ !! w_task_id w = Some task →
  (task !! "status" = Some (VStr "completed") ∧ task !! "result" = None) ↔
  (∃ r, w_pc w = L41 r ∨ w_pc w = L42 r ∨ w_pc w = L43 r).
Proof.
  intros HI%reachable_inv Hi Htask.
  destruct (inv_workers σ HI i w Hi) as (task' & status & Htask' & _ & Hline & _).
  assert (task' = task) as -> by congruence.
  unfold line_ok in Hline. split.
  - intros [Hst Hres]. destruct (w_pc w); try done;
      repeat match goal with
             | H : _ ∧ _ |- _ => destruct H
             | H : _ ∨ _ |- _ => destruct H
             | H : ∃ _, _ |- _ => destruct H
             end; try congruence; eauto.
  - intros (r & [Hpc|[Hpc|Hpc]]); rewrite Hpc in Hline; by destruct_and!.
Qed.

(** Once the worker has run to its end, the entry has a ['result'] if and
    only if its status is ['completed']. *)
Lemma result_iff_completed_at_end (σ : world) (i : nat) (w : worker) (task : entry) :
  reachable σ →
  threads σ !! i = Some w →
  w_pc w = Done →
  analysis_tasks σ !! w_task_id w = Some task →
  is_Some (task !! "result") ↔ task !! "status" = Some (VStr "completed").
Proof.
  intros Hr Hi Hdone Htask. split; [by eapply result_implies_completed|].
  intros Hst. destruct (task !! "result") eqn:Hres; [done|].
  destruct (proj1 (completed_without_result_window σ i w task Hr Hi Htask) (conj Hst Hres))
    as (r & [?|[?|?]]); congruence.
Qed.

(** The world once the worker of the second upload has run to its end. *)
Definition demo_completed : world :=
  Nat.iter 12 (thread_step 0) (upload_patent (demo_upload 1024) demo_env_ok (initial ∅)).2.

Lemma demo_completed_reachable : reachable demo_completed.
Proof.
  apply thread_steps_reachable; [|vm_compute; lia].
  eapply reach_step; [apply (reach_initial ∅)|]. by apply step_upload.
Qed.

(** How far the code keeps ['result'] and ['completed'] together.  In every
    world the server can reach, an entry that has a ['result'] has status
    ['completed']; the converse holds for every task whose worker does not
    stand at line 41, 42 or 43, hence for every task whose worker has run to
    its end. *)
Theorem result_iff_completed_outside_window (σ : world) (task_id : string) (task : entry) :
  reachable σ →
  analysis_tasks σ !! task_id = Some task →
  (is_Some (task !! "result") → task !! "status" = Some (VStr "completed")) ∧
  ((∀ i w r, threads σ !! i = Some w → w_task_id w = task_id →
             w_pc w ≠ L41 r ∧ w_pc w ≠ L42 r ∧ w_pc w ≠ L43 r) →
   (is_Some (task !! "result") ↔ task !! "status" = Some (VStr "completed"))) ∧
  (∀ i w, threads σ !! i = Some w → w_task_id w = task_id → w_pc w = Done →
          (is_Some (task !! "result") ↔ task !! "status" = Some (VStr "completed"))).
Proof.
  intros Hreach Htask.
  assert (is_Some (task !! "result") → task !! "status" = Some (VStr "completed")) as Hsafe
    by (by eapply result_implies_completed).
  split_and!; [done| |].
  - intros Hout. split; [done|]. intros Hst.
    destruct (task !! "result") eqn:Hres; [done|].
    pose proof (reachable_inv σ Hreach) as HI.
    destruct (decide (task_id ∈ w_task_id <$> threads σ)) as [Hin|Hnotin].
    + apply list_elem_of_fmap in Hin as (w & -> & (i & Hi)%list_elem_of_lookup).
      destruct (proj1 (completed_without_result_window σ i w task Hreach Hi Htask)
                  (conj Hst Hres)) as (r & Hpc).
      destruct (Hout i w r Hi eq_refl) as (? & ? & ?). by destruct Hpc as [?|[?|?]].
    + destruct (inv_orphan σ HI _ task Htask Hnotin) as (Hpending & _). congruence.
  - intros i w Hi <- Hdone. by eapply result_iff_completed_at_end.
Qed.

(** The entry of the task in [demo_completed]. *)
Definition demo_completed_task : entry :=
  <["result" := VResult demo_result]>
  (<["message" := VStr "分析完成"]>
  (<["progress" := VInt 100]>
  (<["status" := VStr "completed"]>
  (pending_task {| filename := "patent.pdf"; content_length := 1024 |} 1700000000)))).

Lemma result_iff_completed_witness :
  analysis_tasks demo_completed !! "7f3c" = Some demo_completed_task ∧
  is_Some (demo_completed_task !! "result") ∧
  demo_completed_task !! "status" = Some (VStr "completed").
Proof.
  assert (analysis_tasks demo_completed !! "7f3c" = Some demo_completed_task) as Htask
    by (vm_compute; reflexivity).
  assert (is_Some (demo_completed_task !! "result")) as Hres by (by eexists).
  split_and!; [exact Htask|exact Hres|].
  exact (proj1 (result_iff_completed_outside_window demo_completed "7f3c"
                  demo_completed_task demo_completed_reachable Htask) Hres).
Defined.

(** Both readers test the status and then index [task['result']] with no
    guard (lines 133-137 and 191-194), where the failed branch reads
    [task.get('error', ...)]: they take ['completed'] to mean that the
    result is there.  In the world [demo_completing] the report fails on
    the missing key as well. *)
Lemma report_fails_before_result_is_stored (now : string) :
  generate_report (analysis_tasks demo_completing) now "7f3c" =
    (Dict [("error", VStr "報告生成失敗: 'result'")], 500%Z).
Proof. vm_compute. reflexivity. Qed.

(** C2: the ['result'] key is present if and only if the status is
    ['completed'].  [run_analysis] breaks it: it writes the status at line
    40 and the result only at line 43.  The world [demo_completing] is
    reached by one upload and seven statements of its worker; there the
    entry of the task has status ['completed'] and no ['result'], and
    [/analyze/<task_id>] fails on the missing key and answers 500 for an
    analysis that succeeded. *)
Lemma completed_without_result :
  reachable demo_completing ∧
  analysis_tasks demo_completing !! "7f3c" ≫= (.!! "status") = Some (VStr "completed") ∧
  analysis_tasks demo_completing !! "7f3c" ≫= (.!! "result") = None ∧
  get_analysis_result (analysis_tasks demo_completing) "7f3c" =
    (Dict [("error", VStr "取得結果失敗: 'result'")], 500%Z).
Proof.
  split; [apply demo_completing_reachable|].
  split_and!.
  - vm_compute. reflexivity.
  - vm_compute. reflexivity.
  - vm_compute. reflexivity.
Qed.

End RoutesProps.

(** * More of the analyzer *)

Module AnalyzerMoreProps.
Import Py Re Analyzer AnalyzerProps.

(** ** What formula extraction returns *)

(** [x in t] on two [str] values, as a proposition. *)
Definition substring (x t : text) : Prop := ∃ a b, t = a ++ x ++ b.

(** The characters the three patterns can take: an ASCII letter, a decimal
    digit or a parenthesis. *)
Definition formula_char (db : unicode_db) (c : char) : Prop :=
  in_range 65 90 c = true ∨ in_range 97 122 c = true ∨ is_decimal db c = true ∨
  c = 40%N ∨ c = 41%N.

Section FormulaResults.
Context (db : unicode_db).

Lemma substring_cons (x t : text) (c : char) : substring x t → substring x (c :: t).
Proof. intros (a & b & ->). by exists (c :: a), b. Qed.

Lemma substring_app_r (x t w : text) : substring x t → substring x (w ++ t).
Proof. intros (a & b & ->). exists (w ++ a), b. by rewrite <- app_assoc. Qed.

(** Every match of [findall] is a part of the text, made of characters of
    the classes of the pattern. *)
Lemma findall_from_sound (P : char → Prop) (r : regex) :
  classes_within P r →
  ∀ fuel prev s x,
    x ∈ findall_from db r fuel prev s → substring x s ∧ Forall P x.
Proof.
  intros Hr. induction fuel as [|f IH]; intros prev s x; [by intros ?%elem_of_nil|].
  cbn [findall_from].
  destruct (match_here db r prev s) as [[p' s']|] eqn:Hm.
  - destruct (match_here_consumes db P r _ _ _ _ Hr Hm) as (w & -> & Hw).
    replace (length (w ++ s') - length s') with (length w) by (rewrite length_app; lia).
    rewrite take_app_length.
    destruct w as [|a w'].
    + destruct s' as [|c t]; simpl.
      * intros ->%list_elem_of_singleton. split; [by exists [], []|done].
      * intros [-> |Hin]%elem_of_cons; [split; [by exists [], (c :: t)|done]|].
        apply IH in Hin as [Hsub ?]. split; [by apply substring_cons|done].
    + intros [-> |Hin]%elem_of_cons.
      * split; [by exists [], s'|done].
      * apply IH in Hin as [Hsub ?]. split; [by apply substring_app_r|done].
  - destruct s as [|c t]; [by intros ?%elem_of_nil|].
    intros Hin. apply IH in Hin as [Hsub ?]. split; [by apply substring_cons|done].
Qed.

(** What is in the list after the inner loop was there before, or is a
    match that passed the two tests. *)
Lemma collect_elem_inv (matches acc : list text) (x : text) :
  x ∈ collect db matches acc →
  x ∈ acc ∨ (x ∈ matches ∧ 2 ≤ length x ∧ _is_likely_chemical_formula db x = true).
Proof.
  revert acc. induction matches as [|mt rest IH]; intros acc; cbn [collect]; [by left|].
  intros [Hin|(Hin & ? & ?)]%IH.
  - destruct (2 <=? length mt) eqn:Hlen; simpl in Hin; [|by left].
    destruct (_is_likely_chemical_formula db mt) eqn:Hlik; [|by left].
    destruct (negb _); [|by left].
    apply elem_of_app in Hin as [?| ->%list_elem_of_singleton]; [by left|].
    right. split_and!; [apply list_elem_of_here| |done]. by apply Nat.leb_le.
  - right. split_and!; [by apply list_elem_of_further|done|done].
Qed.

Lemma formula_patterns_classes :
  Forall (classes_within (formula_char db)) (formula_patterns db).
Proof.
  assert (∀ c, in_range 65 90 c = true → formula_char db c) as Hu by (by left).
  assert (∀ c, in_range 97 122 c = true → formula_char db c) as Hl by (right; by left).
  assert (∀ c, is_decimal db c = true → formula_char db c) as Hd
    by (right; right; by left).
  assert (∀ c, (40 =? c)%N = true → formula_char db c) as Ho.
  { intros c <-%N.eqb_eq. right; right; right; by left. }
  assert (∀ c, (41 =? c)%N = true → formula_char db c) as Hc.
  { intros c <-%N.eqb_eq. by repeat right. }
  assert (∀ c, (67 =? c)%N = true → formula_char db c) as HC.
  { intros c <-%N.eqb_eq. by left. }
  assert (∀ c, (72 =? c)%N = true → formula_char db c) as HH.
  { intros c <-%N.eqb_eq. by left. }
  unfold formula_patterns, pattern_basic, pattern_brackets, pattern_organic, element,
    upper_AZ, lower_az, digit, Lit.
  repeat apply Forall_cons_2; [..|apply Forall_nil_2]; cbn [classes_within]; split_and!; done.
Qed.

Lemma candidates_inv (ps : list regex) (t : text) (acc : list text) (x : text) :
  Forall (classes_within (formula_char db)) ps →
  x ∈ collect_patterns db ps t acc →
  x ∈ acc ∨
  (substring x t ∧ Forall (formula_char db) x ∧ 2 ≤ length x ∧
   _is_likely_chemical_formula db x = true).
Proof.
  intros Hps. revert acc. induction Hps as [|p ps Hp _ IH]; intros acc; simpl; [by left|].
  intros [Hin|?]%IH; [|by right].
  apply collect_elem_inv in Hin as [?|(Hin & ? & ?)]; [by left|].
  right. apply (findall_from_sound _ _ Hp) in Hin as [? ?]. by split_and!.
Qed.
End FormulaResults.

(** X1.  Every formula returned is a part of the text with at least two
    characters, made of ASCII letters, decimal digits and parentheses; it
    holds one of the listed element symbols, has a digit or at most six
    characters, and is not one of the listed words. *)
Theorem extracted_formulas_are_filtered_parts_of_the_text
    (db : unicode_db) (t x : text) :
  x ∈ _extract_chemical_formulas db t →
  substring x t ∧
  Forall (formula_char db) x ∧
  2 ≤ length x ∧
  existsb (λ elem, contains elem x) common_elements = true ∧
  (existsb (is_digit db) x = true ∨ length x ≤ 6) ∧
  upper db x ∉ avoid_words.
Proof.
  intros Hin. unfold _extract_chemical_formulas in Hin.
  apply elem_of_take in Hin as (i & Hin & _). apply list_elem_of_lookup_2 in Hin.
  apply (candidates_inv db _ _ _ _ (formula_patterns_classes db)) in Hin
    as [?%elem_of_nil|(? & ? & ? & Hlik)]; [done|].
  unfold _is_likely_chemical_formula in Hlik.
  apply andb_true_iff in Hlik as [[Hel Hnum]%andb_true_iff Hav].
  split_and!; try done.
  - apply orb_true_iff in Hnum as [?|?%Nat.leb_le]; [by left|by right].
  - apply negb_true_iff in Hav. by apply mem_false in Hav.
Qed.

Lemma extracted_formulas_witness :
  str "H2SO4" ∈ _extract_chemical_formulas ascii_db (str "acid H2SO4 and THE salt") ∧
  substring (str "H2SO4") (str "acid H2SO4 and THE salt") ∧
  upper ascii_db (str "H2SO4") ∉ avoid_words.
Proof.
  assert (str "H2SO4" ∈ _extract_chemical_formulas ascii_db (str "acid H2SO4 and THE salt"))
    as Hin by (vm_compute; apply list_elem_of_here).
  pose proof (extracted_formulas_are_filtered_parts_of_the_text ascii_db _ _ Hin)
    as (Hsub & _ & _ & _ & _ & Hav).
  by split_and!.
Defined.

(** ** Image extraction, image by image *)

(** The image is counted: its pixmap can be made, is not CMYK and is saved. *)
Definition counted (img : image) : bool :=
  match img_pixmap img, img_save img with
  | inr (n, alpha), inr _ => (n - alpha <? 4)%Z
  | _, _ => false
  end.

(** The page loads and lists the images [imgs]. *)
Definition page_lists (p : exc + page) (imgs : list image) : Prop :=
  ∃ pg, p = inr pg ∧ page_images pg = inr imgs.

Definition listing_fails (p : exc + page) : Prop :=
  match p with
  | inl _ => True
  | inr pg => ∃ e, page_images pg = inl e
  end.

Lemma mock_choice_in (n : nat) : nth (n mod 5) mock_smiles [] ∈ mock_smiles.
Proof.
  apply list_elem_of_In, nth_In. change (length mock_smiles) with 5.
  apply Nat.mod_upper_bound. lia.
Qed.

Lemma recognised_is_mock (img : image) (smiles : text) :
  _analyze_chemical_structure_image img = Some smiles → smiles ∈ mock_smiles.
Proof.
  unfold _analyze_chemical_structure_image.
  destruct (negb _); [done|]. destruct (img_size img) as [e|[width height]]; [done|].
  destruct (_ || _); [done|]. intros [= <-]. apply mock_choice_in.
Qed.

Lemma mock_smiles_nonempty (smiles : text) : smiles ∈ mock_smiles → smiles ≠ [].
Proof.
  unfold mock_smiles. simpl. rewrite !elem_of_cons, elem_of_nil.
  intros [->|[->|[->|[->|[->|[]]]]]]; done.
Qed.

Lemma image_step_spec (acc : nat * list text) (img : image) :
  image_step acc img =
    if counted img
    then (S acc.1, acc.2 ++ option_list (_analyze_chemical_structure_image img))
    else acc.
Proof.
  unfold image_step, counted. destruct acc as [n l]; simpl.
  destruct (img_pixmap img) as [e|[c a]]; [done|].
  destruct (_ <? _)%Z; [|by destruct (img_save img)].
  destruct (img_save img); [done|].
  destruct (_analyze_chemical_structure_image img) as [s|] eqn:Hs; simpl;
    [|by rewrite app_nil_r].
  rewrite bool_decide_eq_false_2; [done|].
  by apply mock_smiles_nonempty, (recognised_is_mock img).
Qed.

Lemma foldl_image_step (imgs : list image) (acc : nat * list text) :
  foldl image_step acc imgs =
    (acc.1 + length (filter (λ img, counted img = true) imgs),
     acc.2 ++ omap _analyze_chemical_structure_image
                (filter (λ img, counted img = true) imgs)).
Proof.
  revert acc. induction imgs as [|img imgs IH]; intros [n l]; simpl.
  - by rewrite Nat.add_0_r, app_nil_r.
  - rewrite IH, image_step_spec, filter_cons. simpl.
    destruct (counted img) eqn:Hc.
    + rewrite decide_True by done. simpl. f_equal; [lia|].
      rewrite <- app_assoc. f_equal.
      by destruct (_analyze_chemical_structure_image img).
    + by rewrite decide_False by done.
Qed.

Lemma images_loop_ok (pages : list (exc + page)) (imgss : list (list image))
    (acc : nat * list text) :
  Forall2 page_lists pages imgss →
  images_loop pages acc =
    inr (acc.1 + length (filter (λ img, counted img = true) (concat imgss)),
         acc.2 ++ omap _analyze_chemical_structure_image
                    (filter (λ img, counted img = true) (concat imgss))).
Proof.
  intros H. revert acc.
  induction H as [|p imgs pages imgss (pg & -> & Hl) _ IH]; intros [n l].
  - simpl. by rewrite Nat.add_0_r, app_nil_r.
  - simpl. rewrite Hl. simpl. rewrite IH, foldl_image_step. simpl.
    rewrite filter_app, omap_app, length_app, <- app_assoc. do 2 f_equal. lia.
Qed.

Lemma images_loop_fails (pages : list (exc + page)) (acc : nat * list text) :
  Exists listing_fails pages → ∃ e, images_loop pages acc = inl e.
Proof.
  intros H. revert acc. induction pages as [|p pages IH]; intros acc.
  - by apply Exists_nil in H.
  - simpl. destruct p as [e|pg]; [by exists e|]. simpl.
    destruct (page_images pg) as [e|imgs] eqn:Hl; [by exists e|]. simpl.
    apply IH. apply Exists_cons in H as [H|H]; [|done].
    destruct H as [e He]. congruence.
Qed.

(** X2.  When the document opens, the scratch directory is made, every page
    loads and lists its images, and the document closes, the number
    returned is the number of images whose pixmap could be made, is not
    CMYK and was saved, and the strings returned are what the recogniser
    gives for these images, in the order of the document: an image that
    fails is skipped and costs nothing else. *)
Theorem images_counted_and_recognised_in_order
    (f : pdf) (mkdtemp : exc + string) :
  ∀ d dir imgss,
    f = inr d → mkdtemp = inr dir →
    Forall2 page_lists (doc_pages d) imgss →
    doc_close d = inr () →
    _extract_images_and_analyze f mkdtemp =
      (length (filter (λ img, counted img = true) (concat imgss)),
       omap _analyze_chemical_structure_image
         (filter (λ img, counted img = true) (concat imgss))).
Proof.
  intros d dir imgss -> -> Hpages Hclose. unfold _extract_images_and_analyze. simpl.
  rewrite (images_loop_ok _ _ _ Hpages). simpl. by rewrite Hclose.
Qed.

(** X3.  When opening the document, making the scratch directory, loading a
    page, listing its images or closing the document raises, the function
    returns zero and the empty list: what was counted on earlier pages is
    dropped. *)
Theorem image_extraction_failure_drops_everything
    (f : pdf) (mkdtemp : exc + string) :
  match f with
  | inl _ => True
  | inr d =>
      (∃ e, mkdtemp = inl e) ∨ Exists listing_fails (doc_pages d) ∨
      (∃ e, doc_close d = inl e)
  end →
  _extract_images_and_analyze f mkdtemp = (0, []).
Proof.
  unfold _extract_images_and_analyze. destruct f as [e|d]; simpl; [done|].
  intros [[e ->]|[Hpage|[e Hclose]]]; simpl; [done| |].
  - destruct mkdtemp; simpl; [done|].
    by destruct (images_loop_fails _ (0, []) Hpage) as [e ->].
  - destruct mkdtemp; simpl; [done|].
    destruct (images_loop _ _); simpl; [done|]. by rewrite Hclose.
Qed.


(** A document of two pages: an image that is saved and recognised, a CMYK
    image and one whose pixmap cannot be made on the first page, an image
    too small to be a structure on the second. *)
Definition demo_image (n alpha width : Z) (choice : nat) : image :=
  {| img_pixmap := inr (n, alpha); img_save := inr (); img_exists := true;
     img_size := inr (width, 120%Z); img_choice := choice |}.

Definition demo_unreadable_image : image :=
  {| img_pixmap := inl "cannot make pixmap"; img_save := inr (); img_exists := true;
     img_size := inr (200%Z, 120%Z); img_choice := 0 |}.

Definition demo_figures : list (list image) :=
  [[demo_image 3 0 200 1; demo_image 5 1 200 2; demo_unreadable_image];
   [demo_image 4 1 20 3]].

Definition demo_illustrated : document :=
  {| doc_pages := (λ imgs, inr {| page_text := inr []; page_images := inr imgs |})
                    <$> demo_figures;
     doc_close := inr () |}.

Lemma images_counted_witness :
  _extract_images_and_analyze (inr demo_illustrated) (inr "/tmp/tmpk3") = (2, [str "CCO"]).
Proof.
  refine (images_counted_and_recognised_in_order (inr demo_illustrated) (inr "/tmp/tmpk3")
            demo_illustrated "/tmp/tmpk3" demo_figures eq_refl eq_refl _ eq_refl).
  repeat constructor; eexists; by split.
Defined.

Definition demo_half_listed : document :=
  {| doc_pages := [inr {| page_text := inr []; page_images := inr [demo_image 3 0 200 1] |};
                   inr {| page_text := inr []; page_images := inl "cannot list images" |}];
     doc_close := inr () |}.

Lemma image_extraction_failure_witness :
  _extract_images_and_analyze (inr demo_half_listed) (inr "/tmp/tmpk3") = (0, []).
Proof.
  apply (image_extraction_failure_drops_everything (inr demo_half_listed) (inr "/tmp/tmpk3")).
  right; left. apply Exists_cons_tl, Exists_cons_hd. by exists "cannot list images".
Defined.

(** ** The strings returned for the images *)

Lemma foldl_image_step_mock (imgs : list image) (acc : nat * list text) :
  Forall (.∈ mock_smiles) acc.2 → Forall (.∈ mock_smiles) (foldl image_step acc imgs).2.
Proof.
  intros H. rewrite foldl_image_step. simpl. apply Forall_app. split; [done|].
  apply Forall_forall. intros s (img & _ & Hs)%list_elem_of_omap.
  by apply (recognised_is_mock img).
Qed.

Lemma images_loop_mock (pages : list (exc + page)) (acc r : nat * list text) :
  Forall (.∈ mock_smiles) acc.2 → images_loop pages acc = inr r →
  Forall (.∈ mock_smiles) r.2.
Proof.
  revert acc. induction pages as [|p pages IH]; intros acc Hacc; simpl.
  - by intros [= <-].
  - destruct p as [e|pg]; [done|]. simpl.
    destruct (page_images pg) as [e|imgs]; [done|]. simpl.
    apply IH. by apply foldl_image_step_mock.
Qed.

Lemma extract_images_mock (f : pdf) (mkdtemp : exc + string) :
  Forall (.∈ mock_smiles) (_extract_images_and_analyze f mkdtemp).2.
Proof.
  unfold _extract_images_and_analyze.
  destruct f as [e|d]; simpl; [done|]. destruct mkdtemp as [e|dir]; simpl; [done|].
  destruct (images_loop _ _) as [e|r] eqn:Hloop; simpl; [done|].
  destruct (doc_close d); simpl; [done|].
  by apply (images_loop_mock (doc_pages d) (0, []) r); [apply Forall_nil_2|].
Qed.

Lemma mock_smiles_validate (smiles : text) :
  smiles ∈ mock_smiles → validate_smiles smiles = true.
Proof.
  unfold mock_smiles. simpl. rewrite !elem_of_cons, elem_of_nil.
  intros [->|[->|[->|[->|[->|[]]]]]]; vm_compute; reflexivity.
Qed.

(** X4.  Whatever the document holds, every string that image extraction
    returns is one of the five fixed strings of the recogniser and passes
    [validate_smiles]: it is not empty and made of the characters that
    [validate_smiles] allows. *)
Theorem returned_smiles_are_mock_and_valid
    (f : pdf) (mkdtemp : exc + string) (smiles : text) :
  smiles ∈ (_extract_images_and_analyze f mkdtemp).2 →
  smiles ∈ mock_smiles ∧ validate_smiles smiles = true ∧
  smiles ≠ [] ∧ Forall (.∈ valid_chars) smiles.
Proof.
  intros Hin.
  pose proof (proj1 (Forall_forall _ _) (extract_images_mock f mkdtemp) _ Hin) as Hmock.
  pose proof (mock_smiles_validate smiles Hmock) as Hvalid.
  split_and!; [done|done|by apply mock_smiles_nonempty|].
  unfold validate_smiles in Hvalid. destruct (_ || _); [done|].
  apply Forall_forall. intros c Hc.
  apply list_elem_of_In in Hc.
  eapply bool_decide_eq_true_1, (proj1 (forallb_forall _ _) Hvalid c Hc).
Qed.

Lemma returned_smiles_witness :
  str "CCO" ∈ (_extract_images_and_analyze (inr demo_illustrated) (inr "/tmp/tmpk3")).2 ∧
  validate_smiles (str "CCO") = true.
Proof.
  assert (str "CCO" ∈
    (_extract_images_and_analyze (inr demo_illustrated) (inr "/tmp/tmpk3")).2) as Hin
    by (vm_compute; apply list_elem_of_here).
  split; [exact Hin|].
  exact (proj1 (proj2 (returned_smiles_are_mock_and_valid _ _ _ Hin))).
Defined.


(** ** The summary and the result it is made from *)

Definition compound_labels : list string := ["有機化合物"; "無機鹽類"; "其他化合物"].

Lemma compound_type_label (formula : text) : compound_type formula ∈ compound_labels.
Proof.
  unfold compound_type, compound_labels.
  destruct (_ && _); [set_solver|]. destruct (existsb _ _); set_solver.
Qed.

(** X5.  The analysis always returns a result, and its summary agrees with
    it: the counts are the lengths of the two lists and the page and image
    numbers of the result, at most 20 formulas and no more structures than
    images; the strength is the highest grade exactly when more than five
    formulas were found, the middle grade exactly when there are at most
    five and the stored claims text has more than 100 characters, and the
    lowest otherwise; the compound types are among the three labels, and
    there is none exactly when no formula was found. *)
Theorem summary_agrees_with_result
    (re_search : string → text → option text) (db : unicode_db)
    (f : pdf) (mkdtemp : exc + string) :
  ∃ r s,
    analyze_patent_pdf re_search db f mkdtemp = inr r ∧
    analysis_summary r = Some s ∧
    total_compounds s = length (chemical_formulas r) ∧
    total_compounds s ≤ 20 ∧
    total_structures s = length (smiles_structures r) ∧
    total_structures s ≤ images_found s ∧
    images_found s = images_extracted r ∧
    pages_analyzed s = pages_processed r ∧
    (patent_strength s = "高" ↔ 5 < length (chemical_formulas r)) ∧
    (patent_strength s = "中等" ↔
       length (chemical_formulas r) ≤ 5 ∧
       ∃ c, patent_elements r !! "claims" = Some c ∧ 100 < length c) ∧
    (patent_strength s = "低" ↔
       length (chemical_formulas r) ≤ 5 ∧
       ∀ c, patent_elements r !! "claims" = Some c → length c ≤ 100) ∧
    (∀ label, label ∈ compound_types s → label ∈ compound_labels) ∧
    (compound_types s = ∅ ↔ chemical_formulas r = []).
Proof.
  unfold analyze_patent_pdf.
  destruct (_extract_text_from_pdf f) as [full_text pages].
  pose proof (extract_images_le f mkdtemp) as Hle.
  destruct (_extract_images_and_analyze f mkdtemp) as [images smiles_list].
  pose proof (extract_length db full_text) as Hlen.
  set (formulas := _extract_chemical_formulas db full_text) in *.
  set (elems := _extract_patent_elements re_search db full_text).
  eexists _, _. split; [reflexivity|]. split; [reflexivity|]. simpl in *.
  split_and!; try done.
  - destruct (Nat.ltb_spec 5 (length formulas)); [done|].
    split; [|lia]. destruct (elems !! "claims") as [c|]; [|done].
    by destruct (_ && _).
  - destruct (Nat.ltb_spec 5 (length formulas)).
    { split; [done|]. intros [? _]. lia. }
    destruct (elems !! "claims") as [c|]; [|split; [done|by intros (_ & c & ? & _)]].
    destruct (Nat.ltb_spec 100 (length c)); rewrite ?andb_false_r.
    + rewrite andb_true_r. case_bool_decide as Hc; simpl.
      * subst c. simpl in *. lia.
      * split; [|done]. intros _. split; [done|]. by exists c.
    + split; [done|]. intros (_ & c' & [= <-] & ?). lia.
  - destruct (Nat.ltb_spec 5 (length formulas)).
    { split; [done|]. intros [? _]. lia. }
    destruct (elems !! "claims") as [c|]; [|split; [|done]; by intros _].
    destruct (Nat.ltb_spec 100 (length c)); rewrite ?andb_false_r.
    + rewrite andb_true_r. case_bool_decide as Hc; simpl.
      * subst c. simpl in *. lia.
      * split; [done|]. intros [_ Hc']. specialize (Hc' c eq_refl). lia.
    + split; [|done]. intros _. split; [done|]. by intros c' [= <-].
  - intros label (formula & -> & _)%elem_of_list_to_set%list_elem_of_fmap.
    apply compound_type_label.
  - split.
    + intros Hempty. destruct formulas as [|x l]; [done|].
      simpl in Hempty. set_solver.
    + by intros ->.
Qed.

Lemma text_extraction_fails (f : pdf) :
  parsing_fails f → _extract_text_from_pdf f = ([], 0).
Proof.
  unfold parsing_fails, _extract_text_from_pdf.
  destruct f as [e|d]; simpl; [done|].
  intros [Hpage|[e Hclose]].
  - by destruct (text_loop_fails _ ([], 0) Hpage) as [e ->].
  - destruct (text_loop _ _); simpl; [done|]. by rewrite Hclose.
Qed.

(** X6.  A file that cannot be opened, or whose text cannot be read, is not
    reported as an error.  When text extraction fails, the analysis still
    returns a result, with no page processed and no formula; when the file
    does not open at all, the result has no structure and no image
    either, and its summary counts nothing. *)
Theorem unreadable_document_gives_empty_result
    (re_search : string → text → option text) (db : unicode_db)
    (f : pdf) (mkdtemp : exc + string) :
  (parsing_fails f →
   ∃ r, analyze_patent_pdf re_search db f mkdtemp = inr r ∧
     pages_processed r = 0 ∧ chemical_formulas r = [] ∧
     patent_elements r = _extract_patent_elements re_search db []) ∧
  (∀ e, f = inl e →
   ∃ r s, analyze_patent_pdf re_search db f mkdtemp = inr r ∧
     pages_processed r = 0 ∧ chemical_formulas r = [] ∧
     images_extracted r = 0 ∧ smiles_structures r = [] ∧
     analysis_summary r = Some s ∧
     total_compounds s = 0 ∧ total_structures s = 0 ∧ compound_types s = ∅ ∧
     patent_strength s ≠ "高").
Proof.
  split.
  - intros Hfail. unfold analyze_patent_pdf.
    rewrite (text_extraction_fails f Hfail).
    destruct (_extract_images_and_analyze f mkdtemp) as [images smiles_list].
    eexists. split; [reflexivity|]. by split_and!.
  - intros e ->. eexists _, _. split; [reflexivity|]. simpl. split_and!; try done.
    unfold _extract_text_from_pdf. simpl. by repeat case_match.
Qed.


Lemma unreadable_document_witness :
  ∃ r, analyze_patent_pdf (λ _ _, None) ascii_db (inr demo_broken_document)
         (inr "/tmp/tmpk3") = inr r ∧
    pages_processed r = 0 ∧ chemical_formulas r = [].
Proof.
  destruct (proj1 (unreadable_document_gives_empty_result (λ _ _, None) ascii_db
                     (inr demo_broken_document) (inr "/tmp/tmpk3")))
    as (r & Hr & Hpages & Hformulas & _).
  - left. apply Exists_cons_tl, Exists_cons_hd. exact I.
  - by exists r.
Defined.

(** ** Removing the scratch directories *)



End AnalyzerMoreProps.

(** * More of the routes *)

Module RoutesMoreProps.
Import Py Analyzer Routes RoutesProps.

(** ** Which file names are accepted *)

(** ['.' in s] *)
Fixpoint has_dot (s : string) : bool :=
  match s with
  | EmptyString => false
  | String a s' => bool_decide (String a EmptyString = ".") || has_dot s'
  end.

Lemma after_last_dot_None (s : string) : after_last_dot s = None ↔ has_dot s = false.
Proof.
  induction s as [|a s IH]; simpl; [done|].
  destruct (after_last_dot s) as [ext|].
  - split; [done|]. intros [_ H]%orb_false_iff. apply IH in H. done.
  - rewrite (proj1 IH eq_refl), orb_false_r. by case_bool_decide.
Qed.

(** The text after the last dot is [ext] exactly when the name is some
    stem, a dot and [ext], and [ext] has no dot. *)
Lemma after_last_dot_Some (s ext : string) :
  after_last_dot s = Some ext ↔ ∃ stem, s = stem +:+ "." +:+ ext ∧ has_dot ext = false.
Proof.
  revert ext. induction s as [|a s IH]; intros ext; simpl.
  - split; [done|]. intros (stem & Hs & _). by destruct stem.
  - destruct (after_last_dot s) as [ext'|] eqn:Hs.
    + split.
      * intros [= <-]. destruct (proj1 (IH ext') eq_refl) as (stem & -> & Hdot).
        by exists (String a stem).
      * intros ([|b stem] & Heq & Hdot); cbv [String.append] in Heq;
          fold String.append in Heq; simplify_eq.
        -- apply after_last_dot_None in Hdot. congruence.
        -- f_equal. assert (Some ext' = Some ext) as [= ->]; [|done].
           apply IH. by exists stem.
    + apply after_last_dot_None in Hs. split.
      * case_bool_decide as Ha; [|done]. intros [= <-]. simplify_eq.
        by exists EmptyString.
      * intros ([|b stem] & Heq & Hdot); cbv [String.append] in Heq;
          fold String.append in Heq; simplify_eq.
        -- by rewrite bool_decide_eq_true_2.
        -- exfalso. clear IH. revert Hs. induction stem as [|c stem IH]; simpl.
           ++ done.
           ++ intros [_ H]%orb_false_iff. by apply IH.
Qed.

Lemma lower_pdf (ext : string) :
  lower ext = "pdf" ↔
  ext ∈ ["pdf"; "pdF"; "pDf"; "pDF"; "Pdf"; "PdF"; "PDf"; "PDF"].
Proof.
  split.
  - destruct ext as [|a [|b [|c [|d ext]]]]; try done. simpl.
    intros [= Ha Hb Hc].
    assert (∀ x l : Ascii.ascii,
              lower_ascii x = l →
              x = l ∨ x = Ascii.ascii_of_N (Ascii.N_of_ascii l - 32)) as Hcase.
    { intros x l <-. unfold lower_ascii.
      destruct (in_range 65 90 (Ascii.N_of_ascii x)) eqn:Hr; [right|by left].
      unfold in_range in Hr. apply andb_true_iff in Hr as [_ ?%N.leb_le].
      rewrite Ascii.N_ascii_embedding by lia.
      replace (Ascii.N_of_ascii x + 32 - 32)%N with (Ascii.N_of_ascii x) by lia.
      by rewrite Ascii.ascii_N_embedding. }
    destruct (Hcase a _ Ha) as [-> | ->];
      destruct (Hcase b _ Hb) as [-> | ->];
      destruct (Hcase c _ Hc) as [-> | ->]; apply list_elem_of_In; vm_compute; auto 10.
  - rewrite !elem_of_cons, elem_of_nil. intros H.
    repeat destruct H as [->|H]; done.
Qed.

(** X8.  A file name is accepted exactly when it is a stem, a dot and an
    extension without a dot that is ['pdf'] in some mix of upper and lower
    case: only the text after the last dot counts, the stem may be empty,
    and a name without a dot is refused. *)
Theorem allowed_file_iff_last_extension_is_pdf (name : string) :
  allowed_file name = true ↔
  ∃ stem ext, name = stem +:+ "." +:+ ext ∧ has_dot ext = false ∧
    ext ∈ ["pdf"; "pdF"; "pDf"; "pDF"; "Pdf"; "PdF"; "PDf"; "PDF"].
Proof.
  unfold allowed_file, ALLOWED_EXTENSIONS. split.
  - destruct (after_last_dot name) as [ext|] eqn:Hext; [|done].
    intros Hin%bool_decide_eq_true_1. apply list_elem_of_singleton in Hin.
    apply after_last_dot_Some in Hext as (stem & -> & Hdot).
    exists stem, ext. split_and!; [done|done|by apply lower_pdf].
  - intros (stem & ext & -> & Hdot & Hext).
    rewrite (proj2 (after_last_dot_Some _ ext)) by (by exists stem).
    apply bool_decide_eq_true_2, list_elem_of_singleton. by apply lower_pdf.
Qed.

(** ** What an upload leaves behind, by its answer *)

(** The file is one the handler takes in: it is there, has a name, and the
    name is allowed. *)
Definition acceptable (request_files : gmap string FileStorage) (file : FileStorage) : Prop :=
  request_files !! "file" = Some file ∧ filename file ≠ "" ∧
  allowed_file (filename file) = true.

(** The world after an upload that went through. *)
Definition uploaded (file : FileStorage) (env : upload_env) (σ : world) : world :=
  {| analysis_tasks :=
       <[env_task_id env := pending_task file (env_time env)]> (analysis_tasks σ);
     files := <[env_temp_dir env := {[ env_file_uuid env +:+ ".pdf" := content_length file ]}]>
                (files σ);
     threads := threads σ ++ [new_worker env];
     status_log := status_log σ ++ [(env_task_id env, VStr "pending")] |}.

(** Every way a call of [upload_patent] can go. *)
Lemma upload_cases (request_files : gmap string FileStorage) (env : upload_env) (σ : world) :
  let out := upload_patent request_files env σ in
  (out.1.2 = 400%Z ∧ out.2 = σ) ∨
  (∃ file e, acceptable request_files file ∧ out.1 = error_response ("上傳失敗: " +:+ e) 500 ∧
     ((is_Some (files σ !! env_temp_dir env) ∧ out.2 = σ) ∨
      (files σ !! env_temp_dir env = None ∧ env_save env = inl e ∧
       out.2 = with_files <[env_temp_dir env := ∅]> σ) ∨
      (files σ !! env_temp_dir env = None ∧ env_save env = inr () ∧
       (content_length file ≤ MAX_FILE_SIZE)%Z ∧ env_thread_start env = inl e ∧
       out.2 = with_threads (λ _, threads σ) (uploaded file env σ)))) ∨
  (∃ file, acceptable request_files file ∧
     files σ !! env_temp_dir env = None ∧ env_save env = inr () ∧
     (content_length file ≤ MAX_FILE_SIZE)%Z ∧ env_thread_start env = inr () ∧
     out.1 = (Dict [("message", VStr "檔案上傳成功，開始分析");
                    ("task_id", VStr (env_task_id env));
                    ("filename", VStr (filename file))], 200%Z) ∧
     out.2 = uploaded file env σ).
Proof.
  destruct σ as [tasks fs ths log]. simpl.
  unfold upload_patent, upload_body.
  destruct (request_files !! "file") as [file|] eqn:Hfile; [|by left].
  case_bool_decide as Hname; [by left|].
  unfold file_truthy. rewrite bool_decide_eq_false_2 by done. simpl.
  destruct (allowed_file (filename file)) eqn:Hallowed; [|by left].
  assert (acceptable request_files file) as Hacc by done.
  unfold mbind, M_bind, mkdtemp. simpl.
  destruct (fs !! env_temp_dir env) as [dir|] eqn:Hdir.
  { right; left. exists file, "FileExistsError". split_and!; [done|done|]. left. by split. }
  unfold save. simpl. rewrite lookup_insert_eq.
  destruct (env_save env) as [e|[]] eqn:Hsave.
  { right; left. exists file, e. split_and!; [done|done|]. right; left. by split_and!. }
  unfold getsize. simpl. rewrite lookup_insert_eq. simpl. rewrite lookup_insert_eq.
  destruct (Z.ltb_spec MAX_FILE_SIZE (content_length file)) as [Hbig|Hsmall].
  { left. unfold os_remove, os_rmdir. simpl. rewrite !lookup_insert_eq. simpl.
    rewrite lookup_insert_eq.
    rewrite bool_decide_eq_true_2 by (by apply delete_insert_id).
    simpl. split; [done|]. unfold with_files. simpl. f_equal.
    by apply scratch_round_trip. }
  unfold settask, thread_start. simpl.
  destruct (env_thread_start env) as [e|[]] eqn:Hstart.
  - right; left. exists file, e. split_and!; [done|done|]. right; right.
    split_and!; try done.
    unfold uploaded, with_threads, with_log, with_tasks, with_files. simpl.
    f_equal. by rewrite insert_insert_eq.
  - right; right. exists file. split_and!; try done.
    unfold uploaded, with_threads, with_log, with_tasks, with_files. simpl.
    f_equal. by rewrite insert_insert_eq.
Qed.


(** X9.  An upload that is answered with 400 has changed nothing: the
    registry, the threads, the status history and the file system are as
    before, also when the scratch file had been saved and was then found
    too large. *)
Theorem upload_answered_400_changes_nothing (request_files : gmap string FileStorage)
    (env : upload_env) (σ : world) :
  (upload_patent request_files env σ).1.2 = 400%Z →
  (upload_patent request_files env σ).2 = σ.
Proof.
  intros H400.
  destruct (upload_cases request_files env σ)
    as [[_ Hσ]|[(file & e & _ & Hr & _)|(file & _ & _ & _ & _ & _ & Hr & _)]];
    [done| |]; rewrite Hr in H400; done.
Qed.

Lemma upload_answered_400_witness :
  (upload_patent {[ "file" := {| filename := "notes.txt"; content_length := 12 |} ]}
     demo_env (initial ∅)).2 = initial ∅.
Proof. apply upload_answered_400_changes_nothing. vm_compute. reflexivity. Defined.

(** X10.  An upload that is answered with 200 was given a file with an
    allowed name and at most [MAX_FILE_SIZE] bytes; the answer carries the
    task id and the file name; the world has the pending entry of the
    task, the saved file alone in a new directory, one more thread, which
    stands at the first line of [run_analysis], and one more status write;
    and [/status/<task_id>] then answers 200 with status pending and
    progress 0. *)
Theorem upload_answered_200_has_started_the_task (request_files : gmap string FileStorage)
    (env : upload_env) (σ : world) :
  (upload_patent request_files env σ).1.2 = 200%Z →
  ∃ file,
    acceptable request_files file ∧
    (content_length file ≤ MAX_FILE_SIZE)%Z ∧
    files σ !! env_temp_dir env = None ∧
    upload_patent request_files env σ =
      ((Dict [("message", VStr "檔案上傳成功，開始分析");
              ("task_id", VStr (env_task_id env));
              ("filename", VStr (filename file))], 200%Z),
       uploaded file env σ) ∧
    get_analysis_status (analysis_tasks (uploaded file env σ)) (env_task_id env) =
      (Dict [("task_id", VStr (env_task_id env)); ("status", VStr "pending");
             ("progress", VInt 0); ("message", VStr "等待處理...");
             ("filename", VStr (filename file));
             ("created_at", VTime (env_time env))], 200%Z).
Proof.
  intros H200.
  destruct (upload_cases request_files env σ)
    as [[H400 _]|[(file & e & _ & Hr & _)|(file & ? & ? & _ & ? & _ & Hr & Hσ)]].
  - rewrite H200 in H400. done.
  - rewrite Hr in H200. done.
  - exists file. split_and!; try done.
    + by apply injective_projections.
    + unfold get_analysis_status, uploaded. simpl. by rewrite lookup_insert_eq.
Qed.

Lemma upload_answered_200_witness :
  ∃ file,
    upload_patent (demo_upload 1024) demo_env_ok (initial ∅) =
      ((Dict [("message", VStr "檔案上傳成功，開始分析"); ("task_id", VStr "7f3c");
              ("filename", VStr (filename file))], 200%Z),
       uploaded file demo_env_ok (initial ∅)).
Proof.
  assert ((upload_patent (demo_upload 1024) demo_env_ok (initial ∅)).1.2 = 200%Z) as H200
    by (vm_compute; reflexivity).
  destruct (upload_answered_200_has_started_the_task (demo_upload 1024) demo_env_ok
              (initial ∅) H200) as (file & _ & _ & _ & Hout & _).
  by exists file.
Defined.




(** ** Progress and message, line by line *)

(** The value under ['progress'] while the worker stands at a line. *)
Definition progress_at (p : pc) (an : exc + AnalysisResult) : Z :=
  match p with
  | L28 | L29 => 0
  | L30 | L33 | L36 _ | L53 _ | L54 _ | L55 _ => 10
  | L37 _ | L40 _ | L41 _ => 90
  | L42 _ | L43 _ | L47 | L48 => 100
  | Done => match an with inr _ => 100 | inl _ => 10 end
  | Crashed _ => 0
  end.

(** The text under ['message'] while the worker stands at a line. *)
Definition message_at (p : pc) (an : exc + AnalysisResult) : string :=
  match p with
  | L28 | L29 | L30 => "等待處理..."
  | L33 | L36 _ | L37 _ | L53 _ | L54 _ => "開始分析PDF檔案..."
  | L40 _ | L41 _ | L42 _ => "生成分析報告..."
  | L43 _ | L47 | L48 => "分析完成"
  | L55 e => "分析失敗: " +:+ e
  | Done => match an with inr _ => "分析完成" | inl e => "分析失敗: " +:+ e end
  | Crashed _ => ""
  end.

(** The keys of an entry other than ['status'], ['result'] and ['error']. *)
Definition fields_ok (p : pc) (an : exc + AnalysisResult) (task : entry) : Prop :=
  task !! "progress" = Some (VInt (progress_at p an)) ∧
  task !! "message" = Some (VStr (message_at p an)) ∧
  (∃ name, task !! "filename" = Some (VStr name) ∧ name ≠ "" ∧ allowed_file name = true) ∧
  (∃ now, task !! "created_at" = Some (VTime now)).

Record Inv_fields (σ : world) : Prop := {
  fields_workers : ∀ i w, threads σ !! i = Some w →
    ∃ task, analysis_tasks σ !! w_task_id w = Some task ∧
            fields_ok (w_pc w) (w_analysis w) task;
  fields_orphan : ∀ task_id task,
    analysis_tasks σ !! task_id = Some task →
    task_id ∉ (w_task_id <$> threads σ) →
    task !! "error" = None ∧ ∀ an, fields_ok L28 an task
}.

Lemma fields_pending (file : FileStorage) (now : Z) (an : exc + AnalysisResult) :
  filename file ≠ "" → allowed_file (filename file) = true →
  fields_ok L28 an (pending_task file now).
Proof. intros Hname Hallowed. split_and!; try done; by eexists. Qed.

(** A line that assigns to a key leaves progress and message as the next
    line expects them. *)
Lemma fields_write (w : worker) (task : entry) k v p' :
  line_ok w task →
  fields_ok (w_pc w) (w_analysis w) task →
  write_at (w_pc w) = Some (k, v, p') →
  fields_ok p' (w_analysis w) (<[k := v]> task).
Proof.
  destruct w as [tid d f an p]. unfold line_ok, fields_ok. simpl.
  intros Hl (Hprog & Hmsg & (name & Hname & ? & ?) & (now & Hnow)) Hw.
  destruct p; simplify_eq/=; destruct_and?; simplify_eq;
    (split_and!; [| |exists name; split_and!; [|done|done]|exists now]);
    simplify_map_eq; done.
Qed.

(** The other lines move on to a line that expects the same progress and
    message. *)
Lemma fields_no_write (w : worker) (task : entry) (σ : world) :
  line_ok w task →
  fields_ok (w_pc w) (w_analysis w) task →
  write_at (w_pc w) = None →
  fields_ok (run_analysis_step w σ).1 (w_analysis w) task.
Proof.
  intros Hl Hf Hw. destruct (step_no_write w σ Hw) as (fs & _ & Hnext).
  set (p' := (run_analysis_step w σ).1) in *. clearbody p'.
  destruct w as [tid d f an p]. unfold line_ok, fields_ok in *. simpl in *.
  destruct p; simplify_eq/=.
  - destruct an as [e|r]; subst p'; exact Hf.
  - destruct Hl as ((r & -> & _) & _). by destruct Hnext as [->| ->].
  - by destruct Hl as ((r & -> & _) & _).
  - done.
  - by destruct Hl.
Qed.

Lemma inv_fields_thread_step (i : nat) (σ : world) :
  Inv σ → Inv_fields σ → Inv_fields (thread_step i σ).
Proof.
  intros HI HF. unfold thread_step. destruct (threads σ !! i) as [w|] eqn:Hi; [|done].
  destruct (inv_workers σ HI i w Hi) as (task & status & Htask & Hst & Hline & _).
  destruct (fields_workers σ HF i w Hi) as (task' & Htask' & Hfields).
  assert (task' = task) as -> by congruence.
  destruct (write_at (w_pc w)) as [[[k v] p']|] eqn:Hw.
  - rewrite (step_write w σ task k v p' Htask Hw).
    pose proof (fields_write w task k v p' Hline Hfields Hw) as Hfields'.
    split; simpl; rewrite log_status_tasks, log_status_threads; simpl.
    + intros j w' Hj. destruct (decide (i = j)) as [<-|Hne].
      * rewrite list_lookup_insert_eq in Hj by (by eapply lookup_lt_Some).
        injection Hj as <-. exists (<[k := v]> task). simpl.
        by rewrite lookup_insert_eq.
      * rewrite list_lookup_insert_ne in Hj by done.
        pose proof (other_thread_other_task σ i j w w' HI Hi Hj Hne) as Htid.
        destruct (fields_workers σ HF j w' Hj) as (task'' & ? & ?).
        exists task''. by rewrite lookup_insert_ne.
    + intros t task0. rewrite fmap_task_id_insert by done.
      destruct (decide (w_task_id w = t)) as [<-|Hne].
      * intros _ Hnotin. destruct Hnotin. by eapply task_id_in_threads.
      * rewrite lookup_insert_ne by done. apply (fields_orphan σ HF).
  - pose proof (fields_no_write w task σ Hline Hfields Hw) as Hfields'.
    destruct (step_no_write w σ Hw) as (fs & Hσ & _).
    destruct (run_analysis_step w σ) as [p' σ1]. simpl in *. subst σ1.
    split; simpl.
    + intros j w' Hj. destruct (decide (i = j)) as [<-|Hne].
      * rewrite list_lookup_insert_eq in Hj by (by eapply lookup_lt_Some).
        injection Hj as <-. by exists task.
      * rewrite list_lookup_insert_ne in Hj by done.
        apply (fields_workers σ HF j w' Hj).
    + intros t task0. rewrite fmap_task_id_insert by done. apply (fields_orphan σ HF).
Qed.

Lemma inv_fields_upload (request_files : gmap string FileStorage) (env : upload_env)
    (σ : world) :
  analysis_tasks σ !! env_task_id env = None →
  Inv σ → Inv_fields σ → Inv_fields (upload_patent request_files env σ).2.
Proof.
  intros Hfresh HI HF.
  assert (env_task_id env ∉ w_task_id <$> threads σ) as Hnew.
  { intros (w & Hw & Hin)%list_elem_of_fmap.
    destruct (worker_has_task σ w HI Hin) as [task Htask]. congruence. }
  assert (∀ file i w, threads σ !! i = Some w →
            ∃ task, <[env_task_id env := pending_task file (env_time env)]>
                      (analysis_tasks σ) !! w_task_id w = Some task ∧
                    fields_ok (w_pc w) (w_analysis w) task) as Hold.
  { intros file i w Hi. destruct (fields_workers σ HF i w Hi) as (task & Ht & ?).
    exists task. rewrite lookup_insert_ne; [done|]. intros Heq. congruence. }
  destruct (upload_cases request_files env σ)
    as [[_ ->]|[(file & e & (_ & Hname & Hallowed) & _ & [[_ ->]|[(_ & _ & ->)|(_ & _ & _ & _ & ->)]])
               |(file & (_ & Hname & Hallowed) & _ & _ & _ & _ & _ & ->)]].
  - done.
  - done.
  - split; [apply (fields_workers σ HF)|apply (fields_orphan σ HF)].
  - split; simpl.
    + apply Hold.
    + intros t task. destruct (decide (env_task_id env = t)) as [<-|Hne].
      * rewrite lookup_insert_eq. intros [= <-] _. split; [done|].
        intros an. by apply fields_pending.
      * rewrite lookup_insert_ne by done. apply (fields_orphan σ HF).
  - split; simpl.
    + intros i w [Hi|[_ Hi]]%lookup_app_Some; [by eapply Hold|].
      apply list_lookup_singleton_Some in Hi as [_ <-].
      exists (pending_task file (env_time env)). simpl.
      rewrite lookup_insert_eq. split; [done|]. by apply fields_pending.
    + intros t task. destruct (decide (env_task_id env = t)) as [<-|Hne].
      * rewrite lookup_insert_eq. intros [= <-] _. split; [done|].
        intros an. by apply fields_pending.
      * rewrite lookup_insert_ne by done. intros Ht Hnotin.
        apply (fields_orphan σ HF t task Ht). intros Hin. apply Hnotin.
        rewrite fmap_app. apply elem_of_app. by left.
Qed.

Lemma reachable_inv_fields (σ : world) : reachable σ → Inv_fields σ.
Proof.
  induction 1 as [fs|σ σ' Hreach IH Hstep].
  - split; simpl.
    + intros i w Hi. by rewrite lookup_nil in Hi.
    + intros t task Ht. by rewrite lookup_empty in Ht.
  - pose proof (reachable_inv σ Hreach) as HI.
    destruct Hstep as [request_files env σ Hfresh|i σ Hi].
    + by apply inv_fields_upload.
    + by apply inv_fields_thread_step.
Qed.


(** ** The whole entry, line by line *)

Definition status_at (p : pc) (an : exc + AnalysisResult) : string :=
  match p with
  | L28 => "pending"
  | L29 | L30 | L33 | L36 _ | L37 _ | L40 _ | L53 _ => "processing"
  | L41 _ | L42 _ | L43 _ | L47 | L48 => "completed"
  | L54 _ | L55 _ => "failed"
  | Done => match an with inr _ => "completed" | inl _ => "failed" end
  | Crashed _ => ""
  end.

Definition result_at (p : pc) (an : exc + AnalysisResult) : option value :=
  match p, an with
  | (L47 | L48 | Done), inr r => Some (VResult r)
  | _, _ => None
  end.

Definition error_at (p : pc) (an : exc + AnalysisResult) : option value :=
  match p, an with
  | Done, inl e => Some (VStr e)
  | _, _ => None
  end.

(** The outcome of the analysis is the one the line was reached with. *)
Definition outcome_at (p : pc) (an : exc + AnalysisResult) : Prop :=
  match p with
  | L36 r | L37 r | L40 r | L41 r | L42 r | L43 r => an = inr r
  | L47 | L48 => ∃ r, an = inr r
  | L53 e | L54 e | L55 e => an = inl e
  | Crashed _ => False
  | _ => True
  end.

(** An entry as it is while the worker of its task stands at [p]. *)
Definition entry_at (p : pc) (an : exc + AnalysisResult) (task : entry) : Prop :=
  outcome_at p an ∧
  task !! "status" = Some (VStr (status_at p an)) ∧
  task !! "result" = result_at p an ∧
  task !! "error" = error_at p an ∧
  fields_ok p an task.

Lemma line_entry (w : worker) (task : entry) :
  line_ok w task → fields_ok (w_pc w) (w_analysis w) task →
  entry_at (w_pc w) (w_analysis w) task.
Proof.
  destruct w as [tid d f an p]. unfold line_ok, entry_at. simpl. intros Hl Hf.
  destruct p; simpl; try done;
    repeat match goal with
           | H : _ ∧ _ |- _ => destruct H
           | H : _ ∨ _ |- _ => destruct H
           | H : ∃ _, _ |- _ => destruct H
           end; simplify_eq/=; split_and!; eauto.
Qed.

(** Every entry of a world the server can reach is the entry of some line:
    the line of the worker of the task, or line 28 when the task has no
    worker. *)
Lemma reachable_entry (σ : world) (task_id : string) (task : entry) :
  reachable σ →
  analysis_tasks σ !! task_id = Some task →
  (∃ i w, threads σ !! i = Some w ∧ w_task_id w = task_id ∧
          entry_at (w_pc w) (w_analysis w) task) ∨
  ((∀ an, entry_at L28 an task) ∧ task_id ∉ (w_task_id <$> threads σ)).
Proof.
  intros Hreach Htask.
  pose proof (reachable_inv σ Hreach) as HI.
  pose proof (reachable_inv_fields σ Hreach) as HF.
  destruct (decide (task_id ∈ w_task_id <$> threads σ)) as [Hin|Hnotin].
  - left. apply list_elem_of_fmap in Hin as (w & -> & (i & Hi)%list_elem_of_lookup).
    destruct (inv_workers σ HI i w Hi) as (task1 & status & Htask1 & _ & Hline & _).
    destruct (fields_workers σ HF i w Hi) as (task2 & Htask2 & Hfields).
    assert (task1 = task) as -> by congruence.
    assert (task2 = task) as -> by congruence.
    exists i, w. split_and!; [done|done|]. by apply line_entry.
  - right. split; [|done]. intros an.
    destruct (inv_orphan σ HI task_id task Htask Hnotin) as (Hst & Hres & _).
    destruct (fields_orphan σ HF task_id task Htask Hnotin) as [Herr Hfields].
    by split_and!.
Qed.


(** ** The query handlers on the worlds the server can reach *)












(** ** A task whose analysis returned *)

Lemma worker_entry (σ : world) (i : nat) (w : worker) :
  reachable σ → threads σ !! i = Some w →
  ∃ task, analysis_tasks σ !! w_task_id w = Some task ∧
          entry_at (w_pc w) (w_analysis w) task.
Proof.
  intros Hreach Hi.
  pose proof (reachable_inv σ Hreach) as HI.
  pose proof (reachable_inv_fields σ Hreach) as HF.
  destruct (inv_workers σ HI i w Hi) as (task1 & status & Htask1 & _ & Hline & _).
  destruct (fields_workers σ HF i w Hi) as (task2 & Htask2 & Hfields).
  assert (task2 = task1) as -> by congruence.
  exists task1. split; [done|]. by apply line_entry.
Qed.

(** The report made from a result and its summary. *)
Definition report_of (task_id : string) (name now : string) (r : AnalysisResult)
    (s : AnalysisSummary) : report :=
  {| rep_task_id := task_id;
     rep_report_title := "專利分析報告";
     rep_filename := VStr name;
     rep_generated_at := now;
     rep_executive_summary := executive_summary r;
     rep_formulas := chemical_formulas r;
     rep_smiles := smiles_structures r;
     rep_count := total_compounds s;
     rep_types := compound_types s;
     rep_patent_elements := patent_elements r;
     rep_pages_analyzed := pages_processed r;
     rep_images_extracted := images_extracted r;
     rep_patent_strength := patent_strength s;
     rep_recommendations := recommendations |}.

(** X14.  In every world the server can reach, once the worker of a task
    whose analysis returned [r] has run to its end, [/analyze/<task_id>]
    answers 200 with [r], [/status/<task_id>] shows completed, 100 and the
    final message, and [/report/<task_id>] answers 200 with the report made
    from [r] when [r] has a summary, and 500 when it has none. *)
Theorem successful_analysis_is_served (σ : world) (i : nat) (w : worker)
    (r : AnalysisResult) :
  reachable σ →
  threads σ !! i = Some w →
  w_analysis w = inr r →
  w_pc w = Done →
  get_analysis_result (analysis_tasks σ) (w_task_id w) =
    (Dict [("task_id", VStr (w_task_id w)); ("status", VStr "completed");
           ("result", VResult r)], 200%Z) ∧
  ∃ name now,
    get_analysis_status (analysis_tasks σ) (w_task_id w) =
      (Dict [("task_id", VStr (w_task_id w)); ("status", VStr "completed");
             ("progress", VInt 100); ("message", VStr "分析完成");
             ("filename", VStr name); ("created_at", VTime now)], 200%Z) ∧
    (∀ s clock, analysis_summary r = Some s →
       generate_report (analysis_tasks σ) clock (w_task_id w) =
         (Report (report_of (w_task_id w) name clock r s), 200%Z)) ∧
    (∀ clock, analysis_summary r = None →
       generate_report (analysis_tasks σ) clock (w_task_id w) =
         error_response "報告生成失敗: 'total_compounds'" 500).
Proof.
  intros Hreach Hi Han Hdone.
  destruct (worker_entry σ i w Hreach Hi) as (task & Htask & Hentry).
  rewrite Han, Hdone in Hentry.
  destruct Hentry as (_ & Hst & Hres & Herr & Hprog & Hmsg & (name & Hname & _) & (now & Hnow)).
  simpl in *. split.
  - unfold get_analysis_result, getitem. by rewrite Htask, Hst, Hres.
  - exists name, now. split_and!.
    + unfold get_analysis_status, getitem, get.
      by rewrite Htask, Hst, Hprog, Hmsg, Hname, Hnow.
    + intros s clock Hs. unfold generate_report, getitem, get.
      rewrite Htask, Hst, Hres, Hname. simpl. by rewrite Hs.
    + intros clock Hs. unfold generate_report, getitem, get.
      rewrite Htask, Hst, Hres. simpl. by rewrite Hs.
Qed.

Lemma successful_analysis_witness :
  threads demo_completed !! 0 = Some (at_pc (new_worker demo_env_ok) Done) ∧
  get_analysis_result (analysis_tasks demo_completed) "7f3c" =
    (Dict [("task_id", VStr "7f3c"); ("status", VStr "completed");
           ("result", VResult demo_result)], 200%Z).
Proof.
  assert (threads demo_completed !! 0 = Some (at_pc (new_worker demo_env_ok) Done)) as Hi
    by (vm_compute; reflexivity).
  split; [exact Hi|].
  exact (proj1 (successful_analysis_is_served demo_completed 0 _ demo_result
                  demo_completed_reachable Hi eq_refl eq_refl)).
Defined.

(** ** Tasks analysed by [analyze_patent_pdf] *)

(** X15.  [analyze_patent_pdf] handles every failure of the parsing library
    itself, so a task that it analyses never fails: in every world the
    server can reach, the entry of such a task has no ['error'] and its
    status is not ['failed'], whatever the file holds; and once the worker
    has run to its end, [/report/<task_id>] answers 200 with a report that
    counts as many compounds as it lists formulas, at most 20, and lists
    no more structures than images. *)
Theorem analyzer_tasks_never_fail (σ : world) (i : nat) (w : worker)
    (re_search : string → text → option text) (db : unicode_db)
    (f : pdf) (mkdtemp : exc + string) :
  reachable σ →
  threads σ !! i = Some w →
  w_analysis w = analyze_patent_pdf re_search db f mkdtemp →
  (∃ task st, analysis_tasks σ !! w_task_id w = Some task ∧
     task !! "status" = Some (VStr st) ∧ st ≠ "failed" ∧ task !! "error" = None) ∧
  (w_pc w = Done →
   ∀ clock, ∃ rep,
     generate_report (analysis_tasks σ) clock (w_task_id w) = (Report rep, 200%Z) ∧
     rep_count rep = length (rep_formulas rep) ∧
     rep_count rep ≤ 20 ∧
     length (rep_smiles rep) ≤ rep_images_extracted rep).
Proof.
  intros Hreach Hi Han.
  assert (∃ r s, w_analysis w = inr r ∧ analysis_summary r = Some s ∧
            total_compounds s = length (chemical_formulas r) ∧
            length (chemical_formulas r) ≤ 20 ∧
            length (smiles_structures r) ≤ images_extracted r) as (r & s & Hr & Hs & Hn & H20 & Him).
  { rewrite Han. unfold analyze_patent_pdf.
    destruct (_extract_text_from_pdf f) as [full_text pages].
    pose proof (AnalyzerProps.extract_images_le f mkdtemp) as Hle.
    destruct (_extract_images_and_analyze f mkdtemp) as [images smiles_list].
    eexists _, _. split; [reflexivity|]. simpl. split_and!; try done.
    apply AnalyzerProps.extract_length. }
  destruct (worker_entry σ i w Hreach Hi) as (task & Htask & Hentry).
  rewrite Hr in Hentry. split.
  - destruct Hentry as (Hout & Hst & _ & Herr & _).
    exists task, (status_at (w_pc w) (inr r)). split_and!; [done|done| |].
    + destruct (w_pc w); simpl in *; done.
    + rewrite Herr. by destruct (w_pc w).
  - intros Hdone clock. rewrite Hdone in Hentry.
    destruct Hentry as (_ & Hst & Hres & _ & _ & _ & (name & Hname & _) & _).
    simpl in *. exists (report_of (w_task_id w) name clock r s). split_and!.
    + unfold generate_report, getitem, get.
      rewrite Htask, Hst, Hres, Hname. simpl. by rewrite Hs.
    + done.
    + simpl. lia.
    + done.
Qed.


(** An upload of a file that cannot be opened, analysed by
    [analyze_patent_pdf]. *)
Definition demo_env_unreadable : upload_env :=
  {| env_task_id := "7f3c"; env_file_uuid := "a91e"; env_temp_dir := "/tmp/tmpq2";
     env_save := inr (); env_time := 1700000000; env_thread_start := inr ();
     env_analysis := analyze_patent_pdf (λ _ _, None) ascii_db
                       (inl "cannot open broken document") (inr "/tmp/tmpk3") |}.

Definition demo_unreadable_started : world :=
  (upload_patent (demo_upload 1024) demo_env_unreadable (initial ∅)).2.

Lemma demo_unreadable_started_reachable : reachable demo_unreadable_started.
Proof. eapply reach_step; [apply (reach_initial ∅)|]. by apply step_upload. Qed.

Lemma analyzer_tasks_never_fail_witness :
  threads demo_unreadable_started !! 0 = Some (new_worker demo_env_unreadable) ∧
  ∃ task st, analysis_tasks demo_unreadable_started !! "7f3c" = Some task ∧
     task !! "status" = Some (VStr st) ∧ st ≠ "failed" ∧ task !! "error" = None.
Proof.
  assert (threads demo_unreadable_started !! 0 = Some (new_worker demo_env_unreadable))
    as Hi by reflexivity.
  split; [exact Hi|].
  exact (proj1 (analyzer_tasks_never_fail demo_unreadable_started 0 _ (λ _ _, None) ascii_db
                  (inl "cannot open broken document") (inr "/tmp/tmpk3")
                  demo_unreadable_started_reachable Hi eq_refl)).
Defined.

(** ** A task whose thread did not start *)

(** X16.  In every world the server can reach, a task of the registry that
    has no thread is as the upload left it: [/analyze/<task_id>] answers
    202 with status pending and progress 0, and [/report/<task_id>] answers
    400.  No later step starts a thread for it, so such a task, left by an
    upload whose [thread.start()] raised, stays pending. *)
Theorem task_without_thread_stays_pending (σ : world) (task_id : string) (task : entry) :
  reachable σ →
  analysis_tasks σ !! task_id = Some task →
  task_id ∉ (w_task_id <$> threads σ) →
  get_analysis_result (analysis_tasks σ) task_id =
    (Dict [("task_id", VStr task_id); ("status", VStr "pending");
           ("progress", VInt 0); ("message", VStr "等待處理...")], 202%Z) ∧
  (∀ clock, generate_report (analysis_tasks σ) clock task_id =
              error_response "分析尚未完成，無法生成報告" 400) ∧
  (∀ σ', step σ σ' →
     analysis_tasks σ' !! task_id = Some task ∧
     task_id ∉ (w_task_id <$> threads σ')).
Proof.
  intros Hreach Htask Hnotin.
  destruct (reachable_entry σ task_id task Hreach Htask)
    as [(i & w & Hi & <- & _)|[Hentry _]].
  { destruct Hnotin. by eapply task_id_in_threads. }
  destruct (Hentry (inl "")) as (_ & Hst & _ & _ & Hprog & Hmsg & _). simpl in *.
  split_and!.
  - unfold get_analysis_result, getitem. by rewrite Htask, Hst, Hprog, Hmsg.
  - intros clock. unfold generate_report, getitem. by rewrite Htask, Hst.
  - intros σ' Hstep. pose proof (reachable_inv σ Hreach) as HI.
    destruct Hstep as [request_files env σ Hfresh|j σ Hj].
    + assert (env_task_id env ≠ task_id) as Hne by (intros <-; congruence).
      destruct (upload_effect request_files env σ)
        as [(-> & -> & _)|(file & -> & _ & [[-> _]|[-> _]])]; try done.
      * by rewrite lookup_insert_ne.
      * rewrite lookup_insert_ne by done. split; [done|].
        rewrite fmap_app. intros [?|Hin]%elem_of_app; [done|].
        simpl in Hin. by apply list_elem_of_singleton in Hin.
    + unfold thread_step. destruct (threads σ !! j) as [w|] eqn:Hw; [|done].
      assert (w_task_id w ≠ task_id) as Hne.
      { intros <-. destruct Hnotin. by eapply task_id_in_threads. }
      destruct (write_at (w_pc w)) as [[[k v] p']|] eqn:Hwrite.
      * destruct (inv_workers σ HI j w Hw) as (task' & _ & Htask' & _).
        rewrite (step_write w σ task' k v p' Htask' Hwrite). simpl.
        rewrite log_status_tasks, log_status_threads. simpl.
        rewrite lookup_insert_ne by done. by rewrite fmap_task_id_insert.
      * destruct (step_no_write w σ Hwrite) as (fs & Hσ & _).
        destruct (run_analysis_step w σ) as [p' σ1]. simpl in *. subst σ1. simpl.
        by rewrite fmap_task_id_insert.
Qed.

(** An upload whose thread does not start. *)
Definition demo_env_no_thread : upload_env :=
  {| env_task_id := "7f3c"; env_file_uuid := "a91e"; env_temp_dir := "/tmp/tmpq2";
     env_save := inr (); env_time := 1700000000;
     env_thread_start := inl "can't start new thread";
     env_analysis := inr demo_result |}.

Definition demo_orphaned : world :=
  (upload_patent (demo_upload 1024) demo_env_no_thread (initial ∅)).2.

Lemma demo_orphaned_reachable : reachable demo_orphaned.
Proof. eapply reach_step; [apply (reach_initial ∅)|]. by apply step_upload. Qed.

Lemma task_without_thread_witness :
  (upload_patent (demo_upload 1024) demo_env_no_thread (initial ∅)).1 =
    error_response "上傳失敗: can't start new thread" 500 ∧
  get_analysis_result (analysis_tasks demo_orphaned) "7f3c" =
    (Dict [("task_id", VStr "7f3c"); ("status", VStr "pending");
           ("progress", VInt 0); ("message", VStr "等待處理...")], 202%Z).
Proof.
  split; [reflexivity|].
  refine (proj1 (task_without_thread_stays_pending demo_orphaned "7f3c"
                   (pending_task {| filename := "patent.pdf"; content_length := 1024 |}
                      1700000000)
                   demo_orphaned_reachable _ _)).
  - reflexivity.
  - by intros ?%elem_of_nil.
Defined.


(** ** The worker run on its own, and the scratch file *)











End RoutesMoreProps.
